(** * patch_cert_bundle: scanning, selecting and patching PEM bundles

    A shallow embedding of [patch_cert_bundle.py].  Python [bytes] are lists
    of [byte]; Python integers (offsets, indices, lengths) are [Z]; a raised
    [ValueError] is the [Raise] outcome carrying the values interpolated
    into its message; the [seen] set of [_select_bundles] is a [gset Z].
    The two [while True] loops are fuelled and a separate development shows
    that the fuel handed out by the top-level functions is never used up. *)

From Stdlib Require Import ZArith Lia List String Ascii.
From Stdlib Require Import Strings.Byte DecimalString.
From stdpp Require Import base tactics list gmap sets.

Local Open Scope Z_scope.

(** ** Bytes and Python slicing *)

Abbreviation bytes := (list byte).

Definition byte_eqb (a b : byte) : bool := Byte.eqb a b.

Definition len {A} (l : list A) : Z := Z.of_nat (length l).

(** [clip n i] is the offset a slice bound [i] denotes in a sequence of
    length [n]: negative bounds count from the end, and every bound is
    clamped to [0, n]. *)
Definition clip (n i : Z) : Z :=
  if i <? 0 then Z.max 0 (n + i) else Z.min i n.

(** [data[:i]] and [data[i:]]. *)
Definition slice_to {A} (data : list A) (i : Z) : list A :=
  take (Z.to_nat (clip (len data) i)) data.

Definition slice_from {A} (data : list A) (i : Z) : list A :=
  drop (Z.to_nat (clip (len data) i)) data.

(** [data[i:j]]. *)
Definition slice {A} (data : list A) (i j : Z) : list A :=
  take (Z.to_nat (clip (len data) j) - Z.to_nat (clip (len data) i))
       (slice_from data i).

(** [sub] is a prefix of [rest]. *)
Fixpoint starts_with (sub rest : bytes) : bool :=
  match sub, rest with
  | [], _ => true
  | _ :: _, [] => false
  | a :: sub', b :: rest' => byte_eqb a b && starts_with sub' rest'
  end.

(** [data.startswith(sub, i)]. *)
Definition startswith (data sub : bytes) (i : Z) : bool :=
  if len data <? i then false else starts_with sub (slice_from data i).

(** Lowest offset, counted from [i], at which [sub] starts in [rest];
    [-1] when there is none. *)
Fixpoint find_aux (sub rest : bytes) (i : Z) : Z :=
  if starts_with sub rest then i
  else match rest with
       | [] => -1
       | _ :: rest' => find_aux sub rest' (i + 1)
       end.

(** [data.find(sub, i)]. *)
Definition find (data sub : bytes) (i : Z) : Z :=
  if (i <? 0) || (i <=? len data)
  then find_aux sub (slice_from data i) (clip (len data) i)
  else -1.

(** ** Constants *)

Definition CERT_BEGIN : bytes :=
  Eval cbv in list_byte_of_string "-----BEGIN CERTIFICATE-----".
Definition CERT_END : bytes :=
  Eval cbv in list_byte_of_string "-----END CERTIFICATE-----".
Definition WHITESPACE : bytes := [x20; x09; x0d; x0a].

(** ** Errors and outcomes *)

(** The [ValueError]s the module raises, each with the values its message
    interpolates. *)
Inductive error :=
| MalformedBundle
| NoBundlesFound
| IndexOutOfRange (i : Z) (count : Z)
| ReplacementLarger (idx : Z) (new_len orig_len : Z)
| ReplacementSmaller (idx : Z).

Inductive outcome (A : Type) :=
| Return (a : A)
| Raise (e : error)
| OutOfFuel.
Arguments Return {A} a.
Arguments Raise {A} e.
Arguments OutOfFuel {A}.

Abbreviation bundle := (Z * Z)%type.

(** ** Scanning *)

(** [data[end : end + 1] in WHITESPACE] for [end < len(data)]. *)
Definition is_whitespace (b : byte) : bool :=
  existsb (byte_eqb b) WHITESPACE.

(** The whitespace-eating loop, run on the bytes from [e] onwards. *)
Fixpoint eat_whitespace (rest : bytes) (e : Z) : Z :=
  match rest with
  | b :: rest' => if is_whitespace b then eat_whitespace rest' (e + 1) else e
  | [] => e
  end.

(** The [while True] loop of [_scan_single]. *)
Fixpoint scan_loop (fuel : nat) (data : bytes) (start e : Z)
  : outcome (option bundle) :=
  match fuel with
  | O => OutOfFuel
  | S fuel' =>
      let next_end := find data CERT_END e in
      if next_end =? -1 then Raise MalformedBundle
      else
        let e1 := next_end + len CERT_END in
        let e2 := eat_whitespace (slice_from data e1) e1 in
        if startswith data CERT_BEGIN e2
        then scan_loop fuel' data start e2
        else Return (Some (start, e2))
  end.

Definition _scan_single_fuel (fuel : nat) (data : bytes) (pos : Z)
  : outcome (option bundle) :=
  let start := find data CERT_BEGIN pos in
  if start =? -1 then Return None
  else scan_loop fuel data start start.

(** The [while True] loop of [find_all_bundles]. *)
Fixpoint find_all_loop (fuel : nat) (data : bytes) (pos : Z)
    (bundles : list bundle) : outcome (list bundle) :=
  match fuel with
  | O => OutOfFuel
  | S fuel' =>
      match _scan_single_fuel (S (length data)) data pos with
      | Return None => Return bundles
      | Return (Some (start, e)) =>
          find_all_loop fuel' data e (bundles ++ [(start, e)])
      | Raise err => Raise err
      | OutOfFuel => OutOfFuel
      end
  end.

Definition _scan_single (data : bytes) (pos : Z) : outcome (option bundle) :=
  _scan_single_fuel (S (length data)) data pos.

Definition find_all_bundles (data : bytes) : outcome (list bundle) :=
  find_all_loop (S (length data)) data 0 [].

(** ** Selecting *)

(** Lines 92-95: a negative index counts from the end. *)
Definition normalize (count i : Z) : Z :=
  if i <? 0 then count + i else i.

Fixpoint select_loop (bundles : list bundle) (indices : list Z)
    (selected : list bundle) (seen : gset Z) : outcome (list bundle) :=
  match indices with
  | [] => Return selected
  | i :: indices' =>
      let idx := normalize (len bundles) i in
      if (idx <? 0) || (idx >=? len bundles)
      then Raise (IndexOutOfRange i (len bundles))
      else if decide (idx ∈ seen)
           then select_loop bundles indices' selected seen
           else select_loop bundles indices'
                  (selected ++ [bundles !!! Z.to_nat idx]) ({[idx]} ∪ seen)
  end.

Definition _select_bundles (bundles : list bundle) (indices : list Z)
  : outcome (list bundle) :=
  select_loop bundles indices [] ∅.

(** ** Patching *)

(** The bytes spliced over a range of [orig_len] bytes when the
    replacement is accepted: the replacement, NUL-padded if shorter. *)
Definition padded (replacement : bytes) (orig_len : Z) : bytes :=
  if len replacement <? orig_len
  then replacement ++ replicate (Z.to_nat (orig_len - len replacement)) x00
  else replacement.

(** One pass through the body of the [for idx, (start, end) in
    enumerate(targets)] loop; progress messages are not modelled. *)
Definition patch_one (blob : bytes) (idx : Z) (target : bundle)
    (replacement : bytes) (strict : bool) : outcome bytes :=
  let '(start, e) := target in
  let orig_len := e - start in
  let new := replacement in
  if len new >? orig_len
  then Raise (ReplacementLarger idx (len new) orig_len)
  else
    if len new <? orig_len
    then
      if strict
      then Raise (ReplacementSmaller idx)
      else
        let new := new ++ replicate (Z.to_nat (orig_len - len new)) x00 in
        Return (slice_to blob start ++ new ++ slice_from blob e)
    else Return (slice_to blob start ++ new ++ slice_from blob e).

Fixpoint patch_loop (blob : bytes) (idx : Z) (targets : list bundle)
    (replacement : bytes) (strict : bool) : outcome bytes :=
  match targets with
  | [] => Return blob
  | target :: targets' =>
      match patch_one blob idx target replacement strict with
      | Return blob' => patch_loop blob' (idx + 1) targets' replacement strict
      | Raise err => Raise err
      | OutOfFuel => OutOfFuel
      end
  end.

(** Lines 116-124 of [patch_bundle]: scan the blob and settle which
    bundles to patch. *)
Definition select_targets (blob : bytes) (indices : option (list Z))
  : outcome (list bundle) :=
  match find_all_bundles blob with
  | Return [] => Raise NoBundlesFound
  | Return bundles =>
      match indices with
      | None => Return bundles
      | Some indices => _select_bundles bundles indices
      end
  | Raise err => Raise err
  | OutOfFuel => OutOfFuel
  end.

(** [patch_bundle] with the two files read passed in as [blob] and
    [replacement] and the bytes written to [output_path] returned. *)
Definition patch_bundle (blob replacement : bytes)
    (indices : option (list Z)) (strict : bool) : outcome bytes :=
  match select_targets blob indices with
  | Return targets => patch_loop blob 0 targets replacement strict
  | Raise err => Raise err
  | OutOfFuel => OutOfFuel
  end.

(** ** Messages *)

Definition str (z : Z) : string := NilZero.string_of_int (Z.to_int z).

Definition message (err : error) : string :=
  match err with
  | MalformedBundle => "Malformed bundle: BEGIN without matching END"
  | NoBundlesFound => "No certificate bundles found in input binary"
  | IndexOutOfRange i count =>
      "Index " ++ str i ++ " out of range – only " ++ str count
        ++ " bundle(s) present"
  | ReplacementLarger idx new_len orig_len =>
      "Replacement bundle larger than original (target #" ++ str idx ++ "): "
        ++ str new_len ++ " > " ++ str orig_len ++ " bytes"
  | ReplacementSmaller idx =>
      "Replacement bundle smaller than original (target #" ++ str idx
        ++ ") and --strict specified"
  end%string.

(** [needle in hay] on strings. *)
Fixpoint contains (hay needle : string) : bool :=
  String.prefix needle hay ||
  match hay with
  | EmptyString => false
  | String _ hay' => contains hay' needle
  end.

(** ** Specification-side notions for selection and patching *)

(** The index lies in [[0, count)]. *)
Definition in_range (count idx : Z) : Prop := 0 <= idx < count.

(** De-duplication that keeps the first occurrence of each element, in
    the order of those first occurrences. *)
Fixpoint first_occurrences (l : list Z) : list Z :=
  match l with
  | [] => []
  | x :: l' => x :: filter (fun y => y <> x) (first_occurrences l')
  end.

(** The reconciliation policy lets the replacement through for this
    target: it is not longer than the range, and not shorter either when
    strict mode is on. *)
Definition accepted (replacement : bytes) (strict : bool) (target : bundle)
  : Prop :=
  len replacement <= target.2 - target.1 /\
  (strict = true -> len replacement = target.2 - target.1).

#[global] Instance accepted_dec replacement strict target :
  Decision (accepted replacement strict target).
Proof. unfold accepted. apply _. Defined.

(** The error the loop body raises for a rejected target at position
    [idx] of the plan. *)
Definition rejection (replacement : bytes) (idx : Z) (target : bundle) : error :=
  if len replacement >? target.2 - target.1
  then ReplacementLarger idx (len replacement) (target.2 - target.1)
  else ReplacementSmaller idx.

(** The target is a range of the blob. *)
Definition in_blob (blob : bytes) (target : bundle) : Prop :=
  0 <= target.1 <= target.2 /\ target.2 <= len blob.

(** Offset [k] lies in none of the targeted ranges. *)
Definition untouched (targets : list bundle) (k : Z) : Prop :=
  forall s e, (s, e) ∈ targets -> ~ (s <= k < e).

Definition disjoint (t1 t2 : bundle) : Prop :=
  t1.2 <= t2.1 \/ t2.2 <= t1.1.

Fixpoint pairwise_disjoint (targets : list bundle) : Prop :=
  match targets with
  | [] => True
  | t :: targets' => Forall (disjoint t) targets' /\ pairwise_disjoint targets'
  end.

(** ** Marker occurrences *)

(** [sub] occurs in [data] at offset [p]. *)
Definition occurs (data sub : bytes) (p : Z) : Prop :=
  0 <= p /\ p + len sub <= len data /\
  take (length sub) (drop (Z.to_nat p) data) = sub.

(** All offsets, counted from [i], at which [sub] starts in [rest]. *)
Fixpoint occurrences_aux (sub rest : bytes) (i : Z) : list Z :=
  (if starts_with sub rest then [i] else []) ++
  match rest with
  | [] => []
  | _ :: rest' => occurrences_aux sub rest' (i + 1)
  end.

Definition occurrences (data sub : bytes) : list Z :=
  occurrences_aux sub data 0.

(** Where a bundle ends when its last END marker starts at [q]: after
    the marker and the whitespace that follows it. *)
Definition after_end (data : bytes) (q : Z) : Z :=
  eat_whitespace (slice_from data (q + len CERT_END)) (q + len CERT_END).

(** ** Ordered bundle lists *)

(** Every bundle of the list is a non-empty range inside [[lo, hi]], and
    each one starts at or after the end of the one before it. *)
Fixpoint ordered_within (lo hi : Z) (bundles : list bundle) : Prop :=
  match bundles with
  | [] => True
  | (s, e) :: bundles' => lo <= s /\ s < e /\ e <= hi /\ ordered_within e hi bundles'
  end.

(** Every BEGIN marker of [data] has an END marker at or after it. *)
Definition terminated (data : bytes) : bool :=
  forallb (fun p => existsb (fun q => p <=? q) (occurrences data CERT_END))
          (occurrences data CERT_BEGIN).

#[global] Instance in_range_dec count idx : Decision (in_range count idx).
Proof. unfold in_range. apply _. Defined.

(** The message of [err] spells out the number [z]. *)
Definition names (err : error) (z : Z) : Prop :=
  contains (message err) (str z) = true.

(** ** Sample blobs *)

Definition LF : bytes := [x0a].

(** A PEM block: BEGIN line, one line of body, END marker. *)
Definition pem (body : string) : bytes :=
  CERT_BEGIN ++ LF ++ list_byte_of_string body ++ LF ++ CERT_END.

(** Two blocks separated by a blank line only. *)
Definition blob_adjacent : bytes :=
  Eval cbv in pem "MIIB" ++ LF ++ LF ++ pem "MIIC".

(** Two blocks with a stray [X] between the blank lines. *)
Definition blob_stray : bytes :=
  Eval cbv in pem "MIIB" ++ LF ++ LF ++ list_byte_of_string "X" ++ LF ++ LF
              ++ pem "MIIC".

(** A block whose END marker lends its trailing dashes to a BEGIN marker
    that is never closed. *)
Definition blob_overlap : bytes :=
  Eval cbv in pem "MIIB" ++ list_byte_of_string "BEGIN CERTIFICATE-----"
              ++ LF ++ list_byte_of_string "MIIC".

(** A BEGIN marker that is never closed. *)
Definition blob_unterminated : bytes :=
  Eval cbv in pem "MIIB" ++ LF ++ CERT_BEGIN ++ LF ++ list_byte_of_string "MIIC".

(** A binary with two bundles of 58 and 62 bytes at offsets 4 and 64. *)
Definition firmware : bytes :=
  Eval cbv in [x7f; x45; x4c; x46] ++ pem "MIIB" ++ [x00; x01]
              ++ pem "MIICAAAA" ++ [xff].

(** A binary that is one bundle of 100 bytes. *)
Definition blob_100 : bytes :=
  Eval cbv in pem "MIIBIjANBgkqhkiG9w0BAQEFAAOCAQ8AMIIBCgKCAQEA0Z".

Definition bytes_60 : bytes := Eval cbv in replicate 60 x44.
Definition bytes_80 : bytes := Eval cbv in replicate 80 x41.
Definition bytes_100 : bytes := Eval cbv in replicate 100 x42.
Definition bytes_120 : bytes := Eval cbv in replicate 120 x43.

(** A replacement bundle as long as the smaller bundle of [firmware]. *)
Definition replacement_58 : bytes := Eval cbv in pem "ZZZZ".

Definition firmware_patched : bytes :=
  Eval vm_compute in
    match patch_bundle firmware replacement_58 (Some [0; 1]) false with
    | Return out => out
    | _ => []
    end.

(** The shortest bundle there is: the END marker borrows the BEGIN
    marker's trailing dashes. *)
Definition blob_tight : bytes :=
  Eval cbv in list_byte_of_string "-----BEGIN CERTIFICATE-----END CERTIFICATE-----".

(** ** The run of the scanner *)

(** [bundles] is what successive calls of [_scan_single] return when the
    first call starts at [pos] and each later one at the end of the
    bundle before it, up to the call that returns [None]. *)
Fixpoint scan_trace (data : bytes) (pos : Z) (bundles : list bundle) : Prop :=
  match bundles with
  | [] => _scan_single data pos = Return None
  | (s, e) :: bundles' =>
      _scan_single data pos = Return (Some (s, e)) /\ scan_trace data e bundles'
  end.

(** Offset [k] lies in one of the ranges. *)
Definition touched (targets : list bundle) (k : Z) : Prop :=
  Exists (fun t => t.1 <= k < t.2) targets.

#[global] Instance touched_dec targets k : Decision (touched targets k).
Proof. unfold touched. apply _. Defined.

(** ** Parsing the [--index] argument *)

(** A [str] is the list of its code points.  [str.strip] and [int] are
    Python's own and are taken as the parameters [strip] and [int] of
    [_parse_indices]; [int] returns [None] where Python's raises
    [ValueError]. *)
Abbreviation pystr := (list Z).

Definition comma : Z := 44.

(** [s.split(",")]. *)
Fixpoint split_comma (s : pystr) : list pystr :=
  match s with
  | [] => [[]]
  | c :: s' =>
      if decide (c = comma) then [] :: split_comma s'
      else match split_comma s' with
           | tok :: toks => (c :: tok) :: toks
           | [] => [[c]]
           end
  end.

Inductive parsed :=
| Indices (indices : list Z)
| ArgumentTypeError.

(** The list comprehension of [_parse_indices], run over the tokens. *)
Fixpoint parse_tokens (strip : pystr -> pystr) (int : pystr -> option Z)
    (toks : list pystr) : parsed :=
  match toks with
  | [] => Indices []
  | tok :: toks' =>
      if decide (strip tok = [])
      then parse_tokens strip int toks'
      else match int (strip tok) with
           | None => ArgumentTypeError
           | Some i =>
               match parse_tokens strip int toks' with
               | Indices indices => Indices (i :: indices)
               | ArgumentTypeError => ArgumentTypeError
               end
           end
  end.

Definition _parse_indices (strip : pystr -> pystr) (int : pystr -> option Z)
    (s : pystr) : parsed :=
  parse_tokens strip int (split_comma s).

(** Both arguments parsed: the two lists one after the other. *)
Definition parsed_app (a b : parsed) : parsed :=
  match a, b with
  | Indices l1, Indices l2 => Indices (l1 ++ l2)
  | _, _ => ArgumentTypeError
  end.

(** ** Basic facts on lengths and slices *)

Section Slices.
Context {A : Type}.
Implicit Types (l k : list A) (i j : Z).

Lemma len_nonneg l : 0 <= len l.
Proof. unfold len. lia. Qed.

Lemma len_app l k : len (l ++ k) = len l + len k.
Proof. unfold len. rewrite length_app. lia. Qed.

Lemma len_cons (x : A) l : len (x :: l) = 1 + len l.
Proof. unfold len. simpl. lia. Qed.

Lemma clip_inside n i : 0 <= i <= n -> clip n i = i.
Proof. intros H. unfold clip. destruct (Z.ltb_spec i 0); lia. Qed.

Lemma clip_range n i : 0 <= n -> 0 <= clip n i <= n.
Proof. intros H. unfold clip. destruct (Z.ltb_spec i 0); lia. Qed.

Lemma slice_from_drop l i : 0 <= i -> slice_from l i = drop (Z.to_nat i) l.
Proof.
  intros H. unfold slice_from, clip.
  destruct (Z.ltb_spec i 0); [lia|].
  destruct (Z.le_gt_cases i (len l)).
  - by rewrite Z.min_l.
  - rewrite Z.min_r by lia. unfold len in *.
    rewrite !drop_ge; [done| lia | lia].
Qed.

Lemma slice_to_take l i : 0 <= i -> slice_to l i = take (Z.to_nat i) l.
Proof.
  intros H. unfold slice_to, clip.
  destruct (Z.ltb_spec i 0); [lia|].
  destruct (Z.le_gt_cases i (len l)).
  - by rewrite Z.min_l.
  - rewrite Z.min_r by lia. unfold len in *.
    rewrite !take_ge; [done| lia | lia].
Qed.

Lemma slice_take_drop l i j :
  0 <= i <= j -> j <= len l ->
  slice l i j = take (Z.to_nat (j - i)) (drop (Z.to_nat i) l).
Proof.
  intros Hi Hj. unfold slice. rewrite slice_from_drop by lia.
  rewrite !clip_inside by lia. f_equal. lia.
Qed.
End Slices.

(** ** [starts_with], [find] and occurrences *)

Lemma byte_eqb_eq a c : byte_eqb a c = true <-> a = c.
Proof. split; [apply byte_dec_bl | apply byte_dec_lb]. Qed.

Lemma starts_with_prefix sub rest :
  starts_with sub rest = true <-> take (length sub) rest = sub.
Proof.
  revert rest. induction sub as [|a sub IH]; intros [|c rest]; simpl; try done.
  rewrite andb_true_iff, byte_eqb_eq, IH. split.
  - intros [-> ->]. done.
  - intros [= -> ->]. done.
Qed.

Lemma starts_with_length sub rest :
  starts_with sub rest = true -> (length sub <= length rest)%nat.
Proof.
  intros H%starts_with_prefix. rewrite <- H at 1.
  rewrite length_take. lia.
Qed.

Lemma starts_with_occurs data sub p :
  0 <= p <= len data ->
  starts_with sub (drop (Z.to_nat p) data) = true <-> occurs data sub p.
Proof.
  intros Hp. unfold occurs. split.
  - intros H. split; [lia|]. split; [|by apply starts_with_prefix].
    apply starts_with_length in H. rewrite length_drop in H.
    unfold len in *. lia.
  - intros (_ & _ & H). by apply starts_with_prefix.
Qed.

Lemma find_aux_spec sub rest i :
  0 <= i ->
  (find_aux sub rest i = -1 /\
   forall k, (k <= length rest)%nat -> starts_with sub (drop k rest) = false)
  \/
  (exists k : nat,
      find_aux sub rest i = i + Z.of_nat k /\ (k <= length rest)%nat /\
      starts_with sub (drop k rest) = true /\
      forall j, (j < k)%nat -> starts_with sub (drop j rest) = false).
Proof.
  revert i. induction rest as [|c rest IH]; intros i Hi; simpl.
  - destruct (starts_with sub []) eqn:E.
    + right. exists 0%nat. repeat split; [lia|lia|done|lia].
    + left. split; [done|]. intros [|k] Hk; simpl in *; [done|lia].
  - destruct (starts_with sub (c :: rest)) eqn:E.
    + right. exists 0%nat. repeat split; [lia|lia|done|lia].
    + destruct (IH (i + 1)) as [[H1 H2]|(k & H1 & H2 & H3 & H4)]; [lia| |].
      * left. split; [done|]. intros [|k] Hk; simpl; [done|].
        apply H2. lia.
      * right. exists (S k). repeat split; [lia|lia|done|].
        intros [|j] Hj; simpl; [done|]. apply H4. lia.
Qed.

Lemma find_spec data sub pos :
  0 <= pos ->
  (find data sub pos = -1 /\ forall q, pos <= q -> ~ occurs data sub q)
  \/
  (pos <= find data sub pos /\ occurs data sub (find data sub pos) /\
   forall q, pos <= q < find data sub pos -> ~ occurs data sub q).
Proof.
  intros Hpos. unfold find.
  destruct (Z.ltb_spec pos 0) as [|_]; [lia|]. simpl.
  destruct (Z.leb_spec pos (len data)) as [Hle|Hgt].
  - rewrite slice_from_drop, clip_inside by lia.
    destruct (find_aux_spec sub (drop (Z.to_nat pos) data) pos Hpos)
      as [[H1 H2]|(k & H1 & H2 & H3 & H4)].
    + left. split; [done|]. intros q Hq Hocc.
      pose proof Hocc as (_ & Hb & _).
      pose proof (len_nonneg sub).
      apply starts_with_occurs in Hocc; [|lia].
      specialize (H2 (Z.to_nat (q - pos))).
      rewrite drop_drop in H2.
      replace (Z.to_nat pos + Z.to_nat (q - pos))%nat with (Z.to_nat q) in H2 by lia.
      rewrite H2 in Hocc; [done|]. rewrite length_drop. unfold len in *. lia.
    + right. rewrite H1. rewrite length_drop in H2.
      rewrite drop_drop in H3. unfold len in *.
      split; [lia|]. split.
      * apply starts_with_occurs; [unfold len; lia|].
        by replace (Z.to_nat (pos + Z.of_nat k)) with (Z.to_nat pos + k)%nat by lia.
      * intros q Hq Hocc.
        pose proof Hocc as (_ & Hb & _).
        pose proof (len_nonneg sub).
        apply starts_with_occurs in Hocc; [|unfold len in *; lia].
        specialize (H4 (Z.to_nat (q - pos))).
        rewrite drop_drop in H4.
        replace (Z.to_nat pos + Z.to_nat (q - pos))%nat with (Z.to_nat q) in H4 by lia.
        rewrite H4 in Hocc; [done|lia].
  - left. split; [done|]. intros q Hq (_ & Hb & _).
    pose proof (len_nonneg sub). lia.
Qed.

Lemma find_least data sub pos r :
  0 <= pos <= r -> occurs data sub r ->
  (forall q, pos <= q < r -> ~ occurs data sub q) ->
  find data sub pos = r.
Proof.
  intros Hr Hocc Hmin.
  destruct (find_spec data sub pos) as [[_ H]|(H1 & H2 & H3)]; [lia| |].
  - destruct (H r); [lia|done].
  - destruct (Z.lt_trichotomy (find data sub pos) r) as [Hlt|[Heq|Hgt]];
      [|done|].
    + destruct (Hmin (find data sub pos)); [lia|done].
    + destruct (H3 r); [lia|done].
Qed.

Lemma find_none data sub pos :
  0 <= pos -> (forall q, pos <= q -> ~ occurs data sub q) ->
  find data sub pos = -1.
Proof.
  intros Hpos Hno.
  destruct (find_spec data sub pos) as [[H _]|(H1 & H2 & _)]; [lia|done|].
  destruct (Hno _ H1 H2).
Qed.

Lemma startswith_occurs data sub e :
  0 <= e -> startswith data sub e = true <-> occurs data sub e.
Proof.
  intros He. unfold startswith.
  destruct (Z.ltb_spec (len data) e) as [Hgt|Hle].
  - split; [done|]. intros (_ & Hb & _). pose proof (len_nonneg sub). lia.
  - rewrite slice_from_drop by lia. apply starts_with_occurs. lia.
Qed.

Lemma occurs_head data c sub p :
  occurs data (c :: sub) p -> data !! Z.to_nat p = Some c.
Proof.
  intros (Hp & Hb & H). simpl in H.
  destruct (drop (Z.to_nat p) data) as [|c' rest] eqn:E; [done|].
  simpl in H. injection H as -> _.
  rewrite <- (Nat.add_0_r (Z.to_nat p)). rewrite <- lookup_drop. by rewrite E.
Qed.

Lemma eat_whitespace_spec rest e :
  e <= eat_whitespace rest e <= e + len rest /\
  (forall k : nat, e + Z.of_nat k < eat_whitespace rest e ->
     exists c, rest !! k = Some c /\ is_whitespace c = true) /\
  (forall c, rest !! Z.to_nat (eat_whitespace rest e - e) = Some c ->
     is_whitespace c = false).
Proof.
  revert e. induction rest as [|c rest IH]; intros e; simpl.
  - rewrite Z.sub_diag. unfold len. simpl. repeat split; [lia|lia|lia|done].
  - rewrite len_cons. pose proof (len_nonneg rest).
    destruct (is_whitespace c) eqn:E.
    + destruct (IH (e + 1)) as (H1 & H2 & H3). split; [lia|]. split.
      * intros [|k] Hk; simpl; [by exists c|]. apply H2. lia.
      * intros c'.
        replace (Z.to_nat (eat_whitespace rest (e + 1) - e))
          with (S (Z.to_nat (eat_whitespace rest (e + 1) - (e + 1)))) by lia.
        simpl. apply H3.
    + rewrite Z.sub_diag. simpl. split; [lia|]. split; [lia|].
      by intros c' [= <-].
Qed.

Lemma eat_whitespace_data data e1 :
  0 <= e1 <= len data ->
  e1 <= eat_whitespace (slice_from data e1) e1 <= len data /\
  (forall q, e1 <= q < eat_whitespace (slice_from data e1) e1 ->
     exists c, data !! Z.to_nat q = Some c /\ is_whitespace c = true) /\
  (forall c, data !! Z.to_nat (eat_whitespace (slice_from data e1) e1) = Some c ->
     is_whitespace c = false).
Proof.
  intros He. rewrite slice_from_drop by lia.
  destruct (eat_whitespace_spec (drop (Z.to_nat e1) data) e1) as (H1 & H2 & H3).
  set (e2 := eat_whitespace _ _) in *.
  assert (len (drop (Z.to_nat e1) data) = len data - e1) as Hl.
  { unfold len in *. rewrite length_drop. lia. }
  rewrite Hl in H1. split; [lia|]. split.
  - intros q Hq. destruct (H2 (Z.to_nat (q - e1))) as (c & Hc & Hw); [lia|].
    exists c. split; [|done]. rewrite lookup_drop in Hc.
    by replace (Z.to_nat e1 + Z.to_nat (q - e1))%nat with (Z.to_nat q) in Hc by lia.
  - intros c Hc. apply H3. rewrite lookup_drop.
    by replace (Z.to_nat e1 + Z.to_nat (e2 - e1))%nat with (Z.to_nat e2) by lia.
Qed.

Lemma begin_not_whitespace data p c :
  occurs data CERT_BEGIN p -> data !! Z.to_nat p = Some c ->
  is_whitespace c = false.
Proof.
  intros H%occurs_head Hc. rewrite H in Hc. by injection Hc as <-.
Qed.

(** Whitespace eating never runs into a BEGIN marker: it stops at or
    before any marker that starts at or after where it began. *)
Lemma eat_whitespace_stops data e1 p :
  0 <= e1 <= p -> occurs data CERT_BEGIN p ->
  eat_whitespace (slice_from data e1) e1 <= p.
Proof.
  intros He Hocc. pose proof Hocc as (_ & Hb & _).
  assert (len CERT_BEGIN = 27) as Hl by done.
  destruct (eat_whitespace_data data e1) as (H1 & H2 & _); [lia|].
  destruct (Z.le_gt_cases (eat_whitespace (slice_from data e1) e1) p); [done|].
  destruct (H2 p) as (c & Hc & Hw); [lia|].
  by rewrite (begin_not_whitespace _ _ _ Hocc Hc) in Hw.
Qed.

(** ** One iteration of the inner scanning loop *)

Lemma len_CERT_END : len CERT_END = 25.
Proof. reflexivity. Qed.

Lemma len_CERT_BEGIN : len CERT_BEGIN = 27.
Proof. reflexivity. Qed.

Lemma scan_loop_step fuel data start e :
  0 <= e ->
  ((forall q, e <= q -> ~ occurs data CERT_END q) /\
   scan_loop (S fuel) data start e = Raise MalformedBundle)
  \/
  (exists q e2,
      e <= q /\ occurs data CERT_END q /\
      (forall q', e <= q' < q -> ~ occurs data CERT_END q') /\
      e2 = eat_whitespace (slice_from data (q + 25)) (q + 25) /\
      q + 25 <= e2 <= len data /\
      ((occurs data CERT_BEGIN e2 /\
        scan_loop (S fuel) data start e = scan_loop fuel data start e2)
       \/
       (~ occurs data CERT_BEGIN e2 /\
        scan_loop (S fuel) data start e = Return (Some (start, e2))))).
Proof.
  intros He. cbn [scan_loop]. rewrite len_CERT_END.
  destruct (find_spec data CERT_END e He) as [[H1 H2]|(H1 & H2 & H3)].
  - left. by rewrite H1.
  - right. set (q := find data CERT_END e) in *.
    destruct (Z.eqb_spec q (-1)) as [|_]; [lia|].
    exists q, (eat_whitespace (slice_from data (q + 25)) (q + 25)).
    pose proof H2 as (_ & Hb & _). rewrite len_CERT_END in Hb.
    destruct (eat_whitespace_data data (q + 25)) as (Hr & _); [lia|].
    repeat (split; [done || lia|]).
    destruct (startswith data CERT_BEGIN _) eqn:E.
    + left. split; [|done]. apply startswith_occurs; [lia|done].
    + right. split; [|done]. intros Hocc%startswith_occurs; [|lia]. congruence.
Qed.

Lemma after_end_eq data q :
  after_end data q = eat_whitespace (slice_from data (q + 25)) (q + 25).
Proof. reflexivity. Qed.

Lemma scan_loop_S fuel data start e :
  scan_loop (S fuel) data start e =
  if find data CERT_END e =? -1 then Raise MalformedBundle
  else
    if startswith data CERT_BEGIN (after_end data (find data CERT_END e))
    then scan_loop fuel data start (after_end data (find data CERT_END e))
    else Return (Some (start, after_end data (find data CERT_END e))).
Proof. reflexivity. Qed.

Lemma scan_loop_result fuel data start e s e' :
  0 <= e ->
  scan_loop fuel data start e = Return (Some (s, e')) ->
  s = start /\ e + 25 <= e' <= len data.
Proof.
  revert e. induction fuel as [|fuel IH]; intros e He; [done|].
  destruct (scan_loop_step fuel data start e He)
    as [[_ ->]|(q & e2 & Hq & _ & _ & _ & Hr & [[_ ->]|[_ ->]])]; [done| |].
  - intros H%IH; lia.
  - intros [= <- <-]. lia.
Qed.

Lemma scan_loop_not_None fuel data start e :
  0 <= e -> scan_loop fuel data start e <> Return None.
Proof.
  revert e. induction fuel as [|fuel IH]; intros e He; [done|].
  destruct (scan_loop_step fuel data start e He)
    as [[_ ->]|(q & e2 & Hq & _ & _ & _ & Hr & [[_ ->]|[_ ->]])]; [done| |done].
  apply IH. lia.
Qed.

Lemma scan_loop_fuel fuel data start e :
  0 <= e -> (Z.to_nat (len data - e) < fuel)%nat ->
  scan_loop fuel data start e <> OutOfFuel.
Proof.
  revert e. induction fuel as [|fuel IH]; intros e He Hf; [lia|].
  destruct (scan_loop_step fuel data start e He)
    as [[_ ->]|(q & e2 & Hq & _ & _ & _ & Hr & [[_ ->]|[_ ->]])]; [done| |done].
  apply IH; lia.
Qed.

Lemma scan_loop_mono fuel fuel' data start e r :
  (fuel <= fuel')%nat ->
  scan_loop fuel data start e = r -> r <> OutOfFuel ->
  scan_loop fuel' data start e = r.
Proof.
  revert fuel' e. induction fuel as [|fuel IH]; intros fuel' e Hf Hr Hne.
  { simpl in Hr. congruence. }
  destruct fuel' as [|fuel']; [lia|]. cbn [scan_loop] in *.
  destruct (_ =? -1); [done|].
  destruct (startswith _ _ _); [|done].
  apply IH; [lia|done|done].
Qed.

Lemma scan_loop_raise fuel data start e err :
  0 <= e -> occurs data CERT_BEGIN e ->
  scan_loop fuel data start e = Raise err ->
  err = MalformedBundle /\
  exists p, occurs data CERT_BEGIN p /\
            forall q, occurs data CERT_END q -> q < p.
Proof.
  revert e. induction fuel as [|fuel IH]; intros e He Hocc; [done|].
  destruct (scan_loop_step fuel data start e He)
    as [[Hno ->]|(q & e2 & Hq & _ & _ & _ & Hr & [[Hb ->]|[_ ->]])]; [| |done].
  - intros [= <-]. split; [done|]. exists e. split; [done|].
    intros q Hq. destruct (Z.lt_ge_cases q e); [done|]. by destruct (Hno q).
  - apply IH; [lia|done].
Qed.

Lemma scan_loop_before fuel data start e P s e' :
  0 <= e <= P -> occurs data CERT_BEGIN P ->
  (forall q, occurs data CERT_END q -> q + 25 <= P) ->
  scan_loop fuel data start e = Return (Some (s, e')) -> e' <= P.
Proof.
  intros He HP Hend. revert e He.
  induction fuel as [|fuel IH]; intros e He; [done|].
  destruct (scan_loop_step fuel data start e)
    as [[_ ->]|(q & e2 & Hq & Hoq & _ & He2 & Hr & [[_ ->]|[_ ->]])];
    [lia|done| |].
  - apply IH. split; [lia|]. subst e2. apply eat_whitespace_stops; [|done].
    specialize (Hend _ Hoq). lia.
  - intros [= <- <-]. subst e2. apply eat_whitespace_stops; [|done].
    specialize (Hend _ Hoq). lia.
Qed.

(** ** One call of [_scan_single] *)

Lemma scan_single_step fuel data pos :
  0 <= pos ->
  ((forall p, pos <= p -> ~ occurs data CERT_BEGIN p) /\
   _scan_single_fuel fuel data pos = Return None)
  \/
  (exists start,
      pos <= start /\ occurs data CERT_BEGIN start /\
      (forall p, pos <= p < start -> ~ occurs data CERT_BEGIN p) /\
      _scan_single_fuel fuel data pos = scan_loop fuel data start start).
Proof.
  intros Hpos. unfold _scan_single_fuel.
  destruct (find_spec data CERT_BEGIN pos Hpos) as [[H1 H2]|(H1 & H2 & H3)].
  - left. by rewrite H1.
  - right. set (start := find data CERT_BEGIN pos) in *.
    destruct (Z.eqb_spec start (-1)) as [|_]; [lia|]. by exists start.
Qed.

Lemma scan_single_result data pos s e :
  0 <= pos -> _scan_single data pos = Return (Some (s, e)) ->
  pos <= s /\ occurs data CERT_BEGIN s /\ s + 25 <= e <= len data.
Proof.
  intros Hpos. unfold _scan_single.
  destruct (scan_single_step (S (length data)) data pos Hpos)
    as [[_ ->]|(start & H1 & H2 & _ & ->)]; [done|].
  intros H. apply scan_loop_result in H as [-> H]; [|lia]. done.
Qed.

Lemma scan_single_fuel data pos :
  0 <= pos -> _scan_single data pos <> OutOfFuel.
Proof.
  intros Hpos. unfold _scan_single.
  destruct (scan_single_step (S (length data)) data pos Hpos)
    as [[_ ->]|(start & H1 & H2 & _ & ->)]; [done|].
  apply scan_loop_fuel; [lia|]. unfold len. lia.
Qed.

Lemma scan_single_raise data pos err :
  0 <= pos -> _scan_single data pos = Raise err ->
  err = MalformedBundle /\
  exists p, occurs data CERT_BEGIN p /\
            forall q, occurs data CERT_END q -> q < p.
Proof.
  intros Hpos. unfold _scan_single.
  destruct (scan_single_step (S (length data)) data pos Hpos)
    as [[_ ->]|(start & H1 & H2 & _ & ->)]; [done|].
  apply scan_loop_raise; [lia|done].
Qed.

Lemma scan_single_before data pos P :
  0 <= pos <= P -> occurs data CERT_BEGIN P ->
  (forall q, occurs data CERT_END q -> q + 25 <= P) ->
  _scan_single data pos = Raise MalformedBundle \/
  exists s e, _scan_single data pos = Return (Some (s, e)) /\ pos < e <= P.
Proof.
  intros Hpos HP Hend.
  pose proof (scan_single_fuel data pos ltac:(lia)) as Hfuel.
  pose proof (scan_single_raise data pos) as Hraise.
  pose proof (scan_single_result data pos) as Hres.
  unfold _scan_single in *.
  destruct (scan_single_step (S (length data)) data pos)
    as [[Hno _]|(start & H1 & H2 & H3 & Heq)]; [lia| |].
  { destruct (Hno P); [lia|done]. }
  assert (start <= P) as Hle.
  { destruct (Z.le_gt_cases start P); [done|]. destruct (H3 P); [lia|done]. }
  rewrite Heq in *.
  destruct (scan_loop (S (length data)) data start start) as [[[s e]|]|err|] eqn:E.
  - right. exists s, e. split; [done|].
    destruct (Hres s e) as (? & ? & ?); [lia|done|].
    apply scan_loop_before with (P := P) in E; [lia|lia|done|done].
  - by apply scan_loop_not_None in E; [|lia].
  - left. destruct (Hraise err) as [-> _]; [lia|done|done].
  - done.
Qed.

(** ** The outer scanning loop *)

Lemma find_all_loop_S fuel data pos acc :
  find_all_loop (S fuel) data pos acc =
  match _scan_single data pos with
  | Return None => Return acc
  | Return (Some (start, e)) => find_all_loop fuel data e (acc ++ [(start, e)])
  | Raise err => Raise err
  | OutOfFuel => OutOfFuel
  end.
Proof. reflexivity. Qed.

Lemma find_all_loop_fuel fuel data pos acc :
  0 <= pos -> (Z.to_nat (len data - pos) < fuel)%nat ->
  find_all_loop fuel data pos acc <> OutOfFuel.
Proof.
  revert pos acc. induction fuel as [|fuel IH]; intros pos acc Hpos Hf; [lia|].
  rewrite find_all_loop_S.
  pose proof (scan_single_fuel data pos Hpos) as Hs.
  pose proof (scan_single_result data pos) as Hr.
  destruct (_scan_single data pos) as [[[s e]|]|err|]; [|done..].
  destruct (Hr s e) as (? & ? & ?); [done..|]. apply IH; lia.
Qed.

Lemma find_all_loop_mono fuel fuel' data pos acc r :
  (fuel <= fuel')%nat ->
  find_all_loop fuel data pos acc = r -> r <> OutOfFuel ->
  find_all_loop fuel' data pos acc = r.
Proof.
  revert fuel' pos acc.
  induction fuel as [|fuel IH]; intros fuel' pos acc Hf Hr Hne.
  { simpl in Hr. congruence. }
  destruct fuel' as [|fuel']; [lia|]. rewrite find_all_loop_S in *.
  destruct (_scan_single data pos) as [[[s e]|]|err|]; [|done..].
  apply IH; [lia|done..].
Qed.

Lemma find_all_loop_ordered fuel data pos acc bundles :
  0 <= pos ->
  find_all_loop fuel data pos acc = Return bundles ->
  exists rest, bundles = acc ++ rest /\ ordered_within pos (len data) rest.
Proof.
  revert pos acc. induction fuel as [|fuel IH]; intros pos acc Hpos; [done|].
  rewrite find_all_loop_S.
  pose proof (scan_single_result data pos) as Hr.
  destruct (_scan_single data pos) as [[[s e]|]|err|]; [| |done..].
  - destruct (Hr s e) as (? & ? & ?); [done..|].
    intros (rest & -> & Hord)%IH; [|lia].
    exists ((s, e) :: rest). rewrite <- app_assoc. split; [done|].
    simpl. repeat split; [lia..|done].
  - intros [= <-]. exists []. by rewrite app_nil_r.
Qed.

Lemma find_all_loop_raise fuel data pos acc err :
  0 <= pos ->
  find_all_loop fuel data pos acc = Raise err ->
  err = MalformedBundle /\
  exists p, occurs data CERT_BEGIN p /\
            forall q, occurs data CERT_END q -> q < p.
Proof.
  revert pos acc. induction fuel as [|fuel IH]; intros pos acc Hpos; [done|].
  rewrite find_all_loop_S.
  pose proof (scan_single_result data pos) as Hr.
  pose proof (scan_single_raise data pos) as He.
  destruct (_scan_single data pos) as [[[s e]|]|err'|]; [|done| |done].
  - destruct (Hr s e) as (? & ? & ?); [done..|]. apply IH. lia.
  - intros [= <-]. by apply He.
Qed.

Lemma find_all_loop_before fuel data pos acc P bundles :
  0 <= pos <= P -> occurs data CERT_BEGIN P ->
  (forall q, occurs data CERT_END q -> q + 25 <= P) ->
  find_all_loop fuel data pos acc <> Return bundles.
Proof.
  intros Hpos HP Hend. revert pos acc Hpos.
  induction fuel as [|fuel IH]; intros pos acc Hpos; [done|].
  rewrite find_all_loop_S.
  destruct (scan_single_before data pos P Hpos HP Hend)
    as [->|(s & e & -> & He)]; [done|].
  apply IH. lia.
Qed.

(** ** Listing occurrences *)

Lemma occurrences_aux_spec sub rest i p :
  p ∈ occurrences_aux sub rest i <->
  exists k : nat, p = i + Z.of_nat k /\ (k <= length rest)%nat /\
                  starts_with sub (drop k rest) = true.
Proof.
  revert i. induction rest as [|c rest IH]; intros i; simpl.
  - rewrite app_nil_r. split.
    + destruct (starts_with sub []) eqn:E; [|by intros ?%elem_of_nil].
      intros ->%list_elem_of_singleton. exists 0%nat. split; [lia|done].
    + intros ([|k] & -> & Hk & H); simpl in *; [|lia].
      rewrite H, Z.add_0_r. by apply list_elem_of_singleton.
  - rewrite elem_of_app, IH. split.
    + intros [H|(k & -> & Hk & H)].
      * destruct (starts_with sub (c :: rest)) eqn:E; [|by apply elem_of_nil in H].
        apply list_elem_of_singleton in H as ->. exists 0%nat.
        split; [lia|]. split; [lia|done].
      * exists (S k). split; [lia|]. split; [lia|done].
    + intros ([|k] & -> & Hk & H); simpl in *.
      * left. rewrite H, Z.add_0_r. by apply list_elem_of_singleton.
      * right. exists k. split; [lia|]. split; [lia|done].
Qed.

Lemma occurrences_spec data sub p :
  p ∈ occurrences data sub <-> occurs data sub p.
Proof.
  unfold occurrences. rewrite occurrences_aux_spec. split.
  - intros (k & -> & Hk & H). apply starts_with_occurs; [unfold len; lia|].
    by replace (Z.to_nat (0 + Z.of_nat k)) with k by lia.
  - intros Hocc. pose proof Hocc as (Hp & Hb & _).
    pose proof (len_nonneg sub).
    exists (Z.to_nat p). split; [lia|]. split; [unfold len in *; lia|].
    apply starts_with_occurs; [lia|done].
Qed.

Lemma terminated_spec data :
  terminated data = true <->
  forall p, occurs data CERT_BEGIN p ->
            exists q, p <= q /\ occurs data CERT_END q.
Proof.
  unfold terminated. rewrite forallb_forall. split.
  - intros H p Hp. apply occurrences_spec, list_elem_of_In, H in Hp.
    apply existsb_exists in Hp as (q & Hq & Hle).
    exists q. split; [lia|]. by apply occurrences_spec, list_elem_of_In.
  - intros H p Hp. apply list_elem_of_In, occurrences_spec, H in Hp
      as (q & Hle & Hq).
    apply existsb_exists. exists q. split; [|lia].
    by apply list_elem_of_In, occurrences_spec.
Qed.

(** ** The scanner as a whole *)

Lemma find_all_bundles_fuel data : find_all_bundles data <> OutOfFuel.
Proof. apply find_all_loop_fuel; [lia|]. unfold len. lia. Qed.

Lemma find_all_bundles_more_fuel data fuel :
  (S (length data) <= fuel)%nat ->
  find_all_loop fuel data 0 [] = find_all_bundles data.
Proof.
  intros Hf. eapply find_all_loop_mono; [done|done|].
  apply find_all_bundles_fuel.
Qed.

Lemma find_all_bundles_ordered data bundles :
  find_all_bundles data = Return bundles ->
  ordered_within 0 (len data) bundles.
Proof.
  intros (rest & -> & H)%find_all_loop_ordered; [done|lia].
Qed.

Lemma find_all_bundles_raise data err :
  find_all_bundles data = Raise err ->
  err = MalformedBundle /\
  exists p, occurs data CERT_BEGIN p /\
            forall q, occurs data CERT_END q -> q < p.
Proof. apply find_all_loop_raise. lia. Qed.

Lemma find_all_bundles_unterminated data p :
  occurs data CERT_BEGIN p ->
  (forall q, occurs data CERT_END q -> q + 25 <= p) ->
  find_all_bundles data = Raise MalformedBundle.
Proof.
  intros Hp Hend. pose proof Hp as (H0 & _).
  pose proof (find_all_bundles_fuel data) as Hf.
  pose proof (find_all_bundles_raise data) as Hr.
  pose proof (find_all_loop_before (S (length data)) data 0 [] p) as Hb.
  unfold find_all_bundles in *.
  destruct (find_all_loop _ data 0 []) as [bundles|err|]; [|  |done].
  - destruct (Hb bundles); [lia|done|done|done].
  - by destruct (Hr err) as [-> _].
Qed.

Lemma find_all_bundles_terminated data :
  (forall p, occurs data CERT_BEGIN p ->
             exists q, p <= q /\ occurs data CERT_END q) ->
  exists bundles, find_all_bundles data = Return bundles.
Proof.
  intros Hterm.
  pose proof (find_all_bundles_fuel data) as Hf.
  pose proof (find_all_bundles_raise data) as Hr.
  destruct (find_all_bundles data) as [bundles|err|]; [by eexists| |done].
  destruct (Hr err) as (_ & p & Hp & Hno); [done|].
  destruct (Hterm p Hp) as (q & Hle & Hq). specialize (Hno q Hq). lia.
Qed.

Lemma find_all_bundles_no_begin data :
  (forall p, ~ occurs data CERT_BEGIN p) ->
  find_all_bundles data = Return [].
Proof.
  intros Hno. unfold find_all_bundles. rewrite find_all_loop_S.
  destruct (scan_single_step (S (length data)) data 0)
    as [[_ H]|(start & _ & Hocc & _)]; [lia| |].
  - unfold _scan_single. by rewrite H.
  - by destruct (Hno start).
Qed.

Lemma ordered_within_weaken lo lo' hi bundles :
  lo' <= lo -> ordered_within lo hi bundles -> ordered_within lo' hi bundles.
Proof. destruct bundles as [|[s e] bundles]; simpl; [done|]. intuition lia. Qed.

Lemma ordered_within_lookup lo hi bundles i s e :
  ordered_within lo hi bundles -> bundles !! i = Some (s, e) ->
  lo <= s /\ s < e /\ e <= hi.
Proof.
  revert lo i. induction bundles as [|[s' e'] bundles IH]; intros lo i; [done|].
  simpl. intros (H1 & H2 & H3 & H4). destruct i as [|i]; simpl.
  - intros [= <- <-]. lia.
  - intros H. destruct (IH _ _ H4 H). lia.
Qed.

Lemma ordered_within_pair lo hi bundles i j s1 e1 s2 e2 :
  ordered_within lo hi bundles -> (i < j)%nat ->
  bundles !! i = Some (s1, e1) -> bundles !! j = Some (s2, e2) ->
  e1 <= s2.
Proof.
  revert lo i j. induction bundles as [|[s' e'] bundles IH]; intros lo i j; [done|].
  simpl. intros (H1 & H2 & H3 & H4) Hij. destruct j as [|j]; [lia|].
  destruct i as [|i]; simpl.
  - intros [= <- <-] H. by destruct (ordered_within_lookup _ _ _ _ _ _ H4 H).
  - apply (IH _ _ _ H4). lia.
Qed.

(** ** Gaps between blocks *)

Lemma forallb_lookup {A} (f : A -> bool) (l : list A) :
  forallb f l = true <-> forall i c, l !! i = Some c -> f c = true.
Proof.
  induction l as [|a l IH]; simpl.
  - split; [by intros _ []|done].
  - rewrite andb_true_iff, IH. split.
    + intros [Ha Hl] [|i] c; simpl; [by intros [= <-]|apply Hl].
    + intros H. split; [apply (H 0%nat); done|].
      intros i c Hc. by apply (H (S i)).
Qed.

Lemma forallb_false_lookup {A} (f : A -> bool) (l : list A) :
  forallb f l = false -> exists i c, l !! i = Some c /\ f c = false.
Proof.
  induction l as [|a l IH]; simpl; [done|].
  destruct (f a) eqn:E; simpl.
  - intros (i & c & Hc & Hf)%IH. by exists (S i), c.
  - intros _. by exists 0%nat, a.
Qed.

Lemma slice_lookup {A} (data : list A) lo hi i :
  0 <= lo <= hi -> hi <= len data ->
  slice data lo hi !! i =
  if decide (Z.of_nat i < hi - lo) then data !! (Z.to_nat lo + i)%nat else None.
Proof.
  intros Hlo Hhi. rewrite slice_take_drop by lia.
  case_decide.
  - rewrite lookup_take_lt by lia. by rewrite lookup_drop.
  - apply lookup_take_ge. lia.
Qed.

Lemma gap_whitespace data lo hi q :
  0 <= lo <= hi -> hi <= len data ->
  forallb is_whitespace (slice data lo hi) = true ->
  lo <= q < hi ->
  exists c, data !! Z.to_nat q = Some c /\ is_whitespace c = true.
Proof.
  intros Hlo Hhi Hws Hq.
  destruct (data !! Z.to_nat q) as [c|] eqn:E.
  - exists c. split; [done|].
    apply (proj1 (forallb_lookup _ _) Hws (Z.to_nat (q - lo))).
    rewrite slice_lookup by lia. rewrite decide_True by lia.
    by replace (Z.to_nat lo + Z.to_nat (q - lo))%nat with (Z.to_nat q) by lia.
  - apply lookup_ge_None in E. unfold len in *. lia.
Qed.

Lemma gap_not_whitespace data lo hi :
  0 <= lo <= hi -> hi <= len data ->
  forallb is_whitespace (slice data lo hi) = false ->
  exists k c, lo <= k < hi /\ data !! Z.to_nat k = Some c /\
              is_whitespace c = false.
Proof.
  intros Hlo Hhi (i & c & Hc & Hf)%forallb_false_lookup.
  rewrite slice_lookup in Hc by lia. case_decide; [|done].
  exists (lo + Z.of_nat i), c. split; [lia|]. split; [|done].
  by replace (Z.to_nat (lo + Z.of_nat i)) with (Z.to_nat lo + i)%nat by lia.
Qed.

Lemma eat_whitespace_exact data e1 p :
  0 <= e1 <= p -> p <= len data ->
  (forall q, e1 <= q < p ->
     exists c, data !! Z.to_nat q = Some c /\ is_whitespace c = true) ->
  (forall c, data !! Z.to_nat p = Some c -> is_whitespace c = false) ->
  eat_whitespace (slice_from data e1) e1 = p.
Proof.
  intros He Hp Hws Hstop.
  destruct (eat_whitespace_data data e1) as (H1 & H2 & H3); [lia|].
  set (r := eat_whitespace _ _) in *.
  destruct (Z.lt_trichotomy r p) as [Hlt|[Heq|Hgt]]; [|done|].
  - destruct (Hws r) as (c & Hc & Hw); [lia|]. by rewrite (H3 c Hc) in Hw.
  - destruct (H2 p) as (c & Hc & Hw); [lia|]. by rewrite (Hstop c Hc) in Hw.
Qed.

Lemma eat_whitespace_upto data e1 k c :
  0 <= e1 <= k -> data !! Z.to_nat k = Some c -> is_whitespace c = false ->
  eat_whitespace (slice_from data e1) e1 <= k.
Proof.
  intros He Hc Hf.
  assert (k < len data) by (apply lookup_lt_Some in Hc; unfold len; lia).
  destruct (eat_whitespace_data data e1) as (H1 & H2 & _); [lia|].
  destruct (Z.le_gt_cases (eat_whitespace (slice_from data e1) e1) k); [done|].
  destruct (H2 k) as (c' & Hc' & Hw); [lia|]. congruence.
Qed.

(** ** A blob with exactly two certificate blocks *)

Section TwoBlocks.
Variables (data : bytes) (p1 q1 p2 q2 : Z).
Hypothesis Hbegin : occurrences data CERT_BEGIN = [p1; p2].
Hypothesis Hend : occurrences data CERT_END = [q1; q2].
Hypothesis Hblock1 : p1 + 27 <= q1.
Hypothesis Hgap : q1 + 25 <= p2.
Hypothesis Hblock2 : p2 + 27 <= q2.

Local Lemma begin_only p : occurs data CERT_BEGIN p <-> p = p1 \/ p = p2.
Proof.
  rewrite <- occurrences_spec, Hbegin, !elem_of_cons, elem_of_nil. tauto.
Qed.

Local Lemma end_only q : occurs data CERT_END q <-> q = q1 \/ q = q2.
Proof.
  rewrite <- occurrences_spec, Hend, !elem_of_cons, elem_of_nil. tauto.
Qed.

Local Lemma two_blocks_bounds : 0 <= p1 /\ q2 + 25 <= len data.
Proof.
  assert (occurs data CERT_BEGIN p1) as (? & _) by (apply begin_only; auto).
  assert (occurs data CERT_END q2) as (_ & ? & _) by (apply end_only; auto).
  rewrite len_CERT_END in *. done.
Qed.

Local Lemma find_first_begin : find data CERT_BEGIN 0 = p1.
Proof.
  pose proof two_blocks_bounds.
  apply find_least; [lia|apply begin_only; auto|].
  intros q Hq Hocc. apply begin_only in Hocc. lia.
Qed.

Local Lemma find_first_end : find data CERT_END p1 = q1.
Proof.
  pose proof two_blocks_bounds.
  apply find_least; [lia|apply end_only; auto|].
  intros q Hq Hocc. apply end_only in Hocc. lia.
Qed.

Local Lemma find_second_end : find data CERT_END p2 = q2.
Proof.
  pose proof two_blocks_bounds.
  apply find_least; [lia|apply end_only; auto|].
  intros q Hq Hocc. apply end_only in Hocc. lia.
Qed.

Local Lemma e_last_range : q2 + 25 <= (after_end data q2) <= len data.
Proof.
  pose proof two_blocks_bounds.
  rewrite after_end_eq.
  destruct (eat_whitespace_data data (q2 + 25)) as (H1 & _); [lia|done].
Qed.

Local Lemma e_mid_range : q1 + 25 <= (after_end data q1) <= p2.
Proof.
  pose proof two_blocks_bounds.
  rewrite after_end_eq.
  destruct (eat_whitespace_data data (q1 + 25)) as (H1 & _); [lia|].
  split; [apply H1|]. apply eat_whitespace_stops; [lia|].
  apply begin_only; auto.
Qed.

Local Lemma scan_second_block fuel start :
  scan_loop (S fuel) data start p2 = Return (Some (start, (after_end data q2))).
Proof.
  pose proof two_blocks_bounds. pose proof e_last_range.
  rewrite scan_loop_S, find_second_end.
  destruct (Z.eqb_spec q2 (-1)) as [|_]; [lia|].
  destruct (startswith data CERT_BEGIN (after_end data q2)) eqn:E; [|done].
  apply startswith_occurs, begin_only in E; lia.
Qed.

Local Lemma scan_after_last : _scan_single data (after_end data q2) = Return None.
Proof.
  pose proof two_blocks_bounds. pose proof e_last_range.
  unfold _scan_single, _scan_single_fuel. rewrite find_none; [done|lia|].
  intros q Hq Hocc. apply begin_only in Hocc. lia.
Qed.

Local Lemma length_two_blocks : exists n, length data = S (S n).
Proof.
  pose proof two_blocks_bounds. exists (length data - 2)%nat.
  unfold len in *. lia.
Qed.

Lemma two_blocks_merged :
  forallb is_whitespace (slice data (q1 + 25) p2) = true ->
  find_all_bundles data = Return [(p1, (after_end data q2))].
Proof.
  intros Hws. pose proof two_blocks_bounds.
  destruct length_two_blocks as (n & Hn).
  assert ((after_end data q1) = p2) as Hmid.
  { rewrite after_end_eq. apply eat_whitespace_exact; [lia|lia| |].
    - intros q Hq. by apply (gap_whitespace data (q1 + 25) p2); [lia|lia| |].
    - intros c. apply begin_not_whitespace, begin_only. auto. }
  assert (_scan_single data 0 = Return (Some (p1, (after_end data q2)))) as Hfirst.
  { unfold _scan_single, _scan_single_fuel. rewrite find_first_begin, Hn.
    destruct (Z.eqb_spec p1 (-1)) as [|_]; [lia|].
    rewrite scan_loop_S, find_first_end.
    destruct (Z.eqb_spec q1 (-1)) as [|_]; [lia|].
    rewrite Hmid.
    rewrite (proj2 (startswith_occurs data CERT_BEGIN p2 ltac:(lia)))
      by (apply begin_only; auto).
    apply scan_second_block. }
  unfold find_all_bundles. rewrite Hn.
  rewrite find_all_loop_S, Hfirst, find_all_loop_S, scan_after_last. done.
Qed.

Lemma two_blocks_split :
  forallb is_whitespace (slice data (q1 + 25) p2) = false ->
  find_all_bundles data = Return [(p1, (after_end data q1)); (p2, (after_end data q2))] /\ (after_end data q1) < p2.
Proof.
  intros Hws. pose proof two_blocks_bounds. pose proof e_mid_range.
  destruct length_two_blocks as (n & Hn).
  assert ((after_end data q1) < p2) as Hmid.
  { apply gap_not_whitespace in Hws as (k & c & Hk & Hc & Hf); [|lia..].
    pose proof (eat_whitespace_upto data (q1 + 25) k c ltac:(lia) Hc Hf).
    rewrite <- after_end_eq in H1. lia. }
  split; [|done].
  assert (_scan_single data 0 = Return (Some (p1, (after_end data q1)))) as Hfirst.
  { unfold _scan_single, _scan_single_fuel. rewrite find_first_begin.
    destruct (Z.eqb_spec p1 (-1)) as [|_]; [lia|].
    rewrite scan_loop_S, find_first_end.
    destruct (Z.eqb_spec q1 (-1)) as [|_]; [lia|].
    destruct (startswith data CERT_BEGIN (after_end data q1)) eqn:E; [|done].
    apply startswith_occurs, begin_only in E; lia. }
  assert (_scan_single data (after_end data q1) = Return (Some (p2, (after_end data q2)))) as Hsecond.
  { unfold _scan_single, _scan_single_fuel.
    rewrite (find_least data CERT_BEGIN (after_end data q1) p2);
      [|lia|apply begin_only; auto|].
    - destruct (Z.eqb_spec p2 (-1)) as [|_]; [lia|].
      apply scan_second_block.
    - intros q Hq Hocc. apply begin_only in Hocc. lia. }
  unfold find_all_bundles. rewrite Hn.
  rewrite find_all_loop_S, Hfirst. destruct n as [|n].
  { unfold len in *. lia. }
  rewrite find_all_loop_S, Hsecond, find_all_loop_S, scan_after_last. done.
Qed.
End TwoBlocks.

(** ** De-duplication keeping first occurrences *)

Lemma filter_all {A} (P : A -> Prop) `{!forall x, Decision (P x)} (l : list A) :
  (forall x, x ∈ l -> P x) -> filter P l = l.
Proof.
  induction l as [|x l IH]; intros Hall; [done|].
  rewrite filter_cons_True by (apply Hall; left).
  rewrite IH; [done|]. intros y Hy. apply Hall. by right.
Qed.

Lemma filter_first_occurrences (P : Z -> Prop) `{!forall x, Decision (P x)} l :
  filter P (first_occurrences l) = first_occurrences (filter P l).
Proof.
  induction l as [|x l IH]; [done|]. simpl.
  destruct (decide (P x)) as [HP|HP].
  - rewrite !filter_cons_True by done. simpl. f_equal.
    rewrite <- IH, !list_filter_filter. apply list_filter_iff. tauto.
  - rewrite !filter_cons_False by done. rewrite <- IH.
    apply list_filter_filter_l. by intros y Hy ->.
Qed.

Lemma first_occurrences_elem_of l x : x ∈ first_occurrences l <-> x ∈ l.
Proof.
  induction l as [|y l IH]; [done|]. simpl.
  rewrite !elem_of_cons, list_elem_of_filter, IH.
  destruct (decide (x = y)); tauto.
Qed.

Lemma first_occurrences_NoDup l : NoDup (first_occurrences l).
Proof.
  induction l as [|y l IH]; simpl; [constructor|].
  apply NoDup_cons. split; [|by apply NoDup_filter].
  rewrite list_elem_of_filter. tauto.
Qed.

Lemma first_occurrences_sublist l : first_occurrences l `sublist_of` l.
Proof.
  induction l as [|y l IH]; simpl; [done|].
  apply sublist_skip. etrans; [apply sublist_filter|done].
Qed.

Lemma first_occurrences_app l1 l2 :
  first_occurrences (l1 ++ l2) =
  first_occurrences l1 ++ filter (fun y => y ∉ l1) (first_occurrences l2).
Proof.
  induction l1 as [|x l1 IH]; simpl.
  - symmetry. apply filter_all. intros y _. apply not_elem_of_nil.
  - f_equal. rewrite IH, filter_app. f_equal.
    rewrite list_filter_filter. apply list_filter_iff.
    intros y. rewrite not_elem_of_cons. tauto.
Qed.

(** ** The selection loop *)

Lemma select_loop_in_range bundles indices selected seen :
  Forall (fun i => in_range (len bundles) (normalize (len bundles) i)) indices ->
  select_loop bundles indices selected seen =
  Return (selected ++
          ((fun k => bundles !!! Z.to_nat k) <$>
           first_occurrences
             (filter (fun k => k ∉ seen) (normalize (len bundles) <$> indices)))).
Proof.
  revert selected seen.
  induction indices as [|i indices IH]; intros selected seen Hall; simpl.
  { by rewrite app_nil_r. }
  apply Forall_cons in Hall as [Hi Hall]. unfold in_range in Hi.
  destruct (Z.ltb_spec (normalize (len bundles) i) 0) as [|_]; [lia|].
  destruct (Z.geb_spec (normalize (len bundles) i) (len bundles)) as [|_]; [lia|].
  simpl. destruct (decide (_ ∈ seen)) as [Hin|Hin].
  - rewrite filter_cons_False by tauto. by apply IH.
  - rewrite filter_cons_True by done. rewrite IH by done.
    set (idx := normalize (len bundles) i) in *.
    set (l := normalize (len bundles) <$> indices).
    assert (first_occurrences (filter (fun k => k ∉ {[idx]} ∪ seen) l) =
            filter (fun y => y <> idx)
                   (first_occurrences (filter (fun k => k ∉ seen) l))) as ->.
    { rewrite filter_first_occurrences, list_filter_filter.
      apply (f_equal first_occurrences), list_filter_iff. intros k.
      rewrite not_elem_of_union, not_elem_of_singleton. tauto. }
    simpl. by rewrite <- app_assoc.
Qed.

Lemma select_loop_out_of_range bundles pre i post selected seen :
  Forall (fun i => in_range (len bundles) (normalize (len bundles) i)) pre ->
  ~ in_range (len bundles) (normalize (len bundles) i) ->
  select_loop bundles (pre ++ i :: post) selected seen =
  Raise (IndexOutOfRange i (len bundles)).
Proof.
  revert selected seen.
  induction pre as [|j pre IH]; intros selected seen Hall Hi; simpl.
  - unfold in_range in Hi.
    destruct (Z.ltb_spec (normalize (len bundles) i) 0) as [|?]; [done|].
    destruct (Z.geb_spec (normalize (len bundles) i) (len bundles)) as [|?];
      [done|lia].
  - apply Forall_cons in Hall as [Hj Hall]. unfold in_range in Hj.
    destruct (Z.ltb_spec (normalize (len bundles) j) 0) as [|_]; [lia|].
    destruct (Z.geb_spec (normalize (len bundles) j) (len bundles)) as [|_]; [lia|].
    simpl. destruct (decide (_ ∈ seen)); by apply IH.
Qed.

Lemma select_loop_Return bundles indices selected seen sel :
  select_loop bundles indices selected seen = Return sel ->
  Forall (fun i => in_range (len bundles) (normalize (len bundles) i)) indices.
Proof.
  revert selected seen.
  induction indices as [|i indices IH]; intros selected seen; simpl; [done|].
  unfold in_range.
  destruct (Z.ltb_spec (normalize (len bundles) i) 0) as [|?]; [done|].
  destruct (Z.geb_spec (normalize (len bundles) i) (len bundles)) as [|?]; [done|].
  simpl. destruct (decide (_ ∈ seen)); intros Hrest%IH; apply Forall_cons;
    (split; [lia|done]).
Qed.

Lemma select_bundles_in_range bundles indices :
  Forall (fun i => in_range (len bundles) (normalize (len bundles) i)) indices ->
  _select_bundles bundles indices =
  Return ((fun k => bundles !!! Z.to_nat k) <$>
          first_occurrences (normalize (len bundles) <$> indices)).
Proof.
  intros H. unfold _select_bundles. rewrite select_loop_in_range by done.
  simpl. rewrite filter_all; [done|]. intros k _. apply not_elem_of_empty.
Qed.

(** ** Splicing one target *)

Lemma len_replicate {A} n (x : A) : len (replicate n x) = Z.of_nat n.
Proof. unfold len. by rewrite length_replicate. Qed.

Lemma len_padded replacement n :
  len replacement <= n -> len (padded replacement n) = n.
Proof.
  intros H. unfold padded. destruct (Z.ltb_spec (len replacement) n).
  - rewrite len_app, len_replicate. lia.
  - lia.
Qed.

Lemma padded_exact replacement n :
  len replacement = n -> padded replacement n = replacement.
Proof. intros H. unfold padded. destruct (Z.ltb_spec (len replacement) n); [lia|done]. Qed.

Lemma padded_shorter replacement n :
  len replacement < n ->
  padded replacement n =
  replacement ++ replicate (Z.to_nat (n - len replacement)) x00.
Proof. intros H. unfold padded. destruct (Z.ltb_spec (len replacement) n); [done|lia]. Qed.

Lemma patch_one_accepted blob idx s e replacement strict :
  accepted replacement strict (s, e) ->
  patch_one blob idx (s, e) replacement strict =
  Return (slice_to blob s ++ padded replacement (e - s) ++ slice_from blob e).
Proof.
  intros [Hle Hstrict]. simpl in *. unfold patch_one, padded.
  destruct (Z.gtb_spec (len replacement) (e - s)); [lia|].
  destruct (Z.ltb_spec (len replacement) (e - s)); [|done].
  destruct strict; [|done]. specialize (Hstrict eq_refl). lia.
Qed.

Lemma patch_one_larger blob idx s e replacement strict :
  len replacement > e - s ->
  patch_one blob idx (s, e) replacement strict =
  Raise (ReplacementLarger idx (len replacement) (e - s)).
Proof.
  intros H. unfold patch_one.
  destruct (Z.gtb_spec (len replacement) (e - s)); [done|lia].
Qed.

Lemma patch_one_smaller blob idx s e replacement :
  len replacement < e - s ->
  patch_one blob idx (s, e) replacement true = Raise (ReplacementSmaller idx).
Proof.
  intros H. unfold patch_one.
  destruct (Z.gtb_spec (len replacement) (e - s)); [lia|].
  destruct (Z.ltb_spec (len replacement) (e - s)); [done|lia].
Qed.

Lemma accepted_cases replacement strict s e :
  accepted replacement strict (s, e) \/
  len replacement > e - s \/
  (len replacement < e - s /\ strict = true).
Proof.
  unfold accepted. simpl.
  destruct (Z.lt_trichotomy (len replacement) (e - s)) as [?|[?|?]];
    destruct strict; intuition (lia || congruence).
Qed.

Lemma patch_one_Return blob idx target replacement strict out :
  patch_one blob idx target replacement strict = Return out ->
  accepted replacement strict target.
Proof.
  destruct target as [s e].
  destruct (accepted_cases replacement strict s e) as [H|[H|[H ->]]]; [done| |].
  - by rewrite patch_one_larger.
  - by rewrite patch_one_smaller.
Qed.

Lemma patch_one_fuel blob idx target replacement strict :
  patch_one blob idx target replacement strict <> OutOfFuel.
Proof.
  destruct target as [s e].
  destruct (accepted_cases replacement strict s e) as [H|[H|[H ->]]].
  - by rewrite patch_one_accepted.
  - by rewrite patch_one_larger.
  - by rewrite patch_one_smaller.
Qed.

Section Splice.
Variables (blob new : bytes) (s e : Z).
Hypothesis Hrange : in_blob blob (s, e).
Hypothesis Hnew : len new = e - s.

Lemma splice_length : length (slice_to blob s ++ new ++ slice_from blob e) = length blob.
Proof.
  destruct Hrange as [H1 H2]. simpl in *.
  rewrite slice_to_take, slice_from_drop by lia.
  rewrite !length_app, length_take, length_drop. unfold len in *. lia.
Qed.

Lemma splice_outside (k : nat) :
  ~ (s <= Z.of_nat k < e) -> (slice_to blob s ++ new ++ slice_from blob e) !! k = blob !! k.
Proof.
  destruct Hrange as [H1 H2]. simpl in *. intros Hk.
  rewrite slice_to_take, slice_from_drop by lia.
  assert (length (take (Z.to_nat s) blob) = Z.to_nat s) as Hl.
  { rewrite length_take. unfold len in *. lia. }
  destruct (Z.lt_ge_cases (Z.of_nat k) s).
  - rewrite lookup_app_l by lia. apply lookup_take_lt. lia.
  - rewrite lookup_app_r by lia. rewrite lookup_app_r by (unfold len in *; lia).
    rewrite lookup_drop. f_equal. unfold len in *. lia.
Qed.

Lemma splice_inside : slice (slice_to blob s ++ new ++ slice_from blob e) s e = new.
Proof.
  pose proof splice_length as Hlen.
  destruct Hrange as [H1 H2]. simpl in *.
  rewrite slice_take_drop by (unfold len in *; lia).
  rewrite slice_to_take, slice_from_drop by lia.
  assert (length (take (Z.to_nat s) blob) = Z.to_nat s) as Hl.
  { rewrite length_take. unfold len in *. lia. }
  rewrite drop_app_length' by done.
  apply take_app_length'. unfold len in *. lia.
Qed.
End Splice.

(** ** The patching loop *)

Lemma in_blob_length blob blob' target :
  length blob' = length blob -> in_blob blob target -> in_blob blob' target.
Proof. unfold in_blob, len. by intros ->. Qed.

Lemma patch_loop_cons blob idx t targets replacement strict :
  patch_loop blob idx (t :: targets) replacement strict =
  match patch_one blob idx t replacement strict with
  | Return blob' => patch_loop blob' (idx + 1) targets replacement strict
  | Raise err => Raise err
  | OutOfFuel => OutOfFuel
  end.
Proof. reflexivity. Qed.

Lemma patch_loop_fuel blob idx targets replacement strict :
  patch_loop blob idx targets replacement strict <> OutOfFuel.
Proof.
  revert blob idx. induction targets as [|t targets IH]; intros blob idx; [done|].
  rewrite patch_loop_cons. pose proof (patch_one_fuel blob idx t replacement strict).
  destruct (patch_one blob idx t replacement strict); [apply IH|done|done].
Qed.

Lemma patch_loop_Return blob idx targets replacement strict out :
  patch_loop blob idx targets replacement strict = Return out ->
  Forall (accepted replacement strict) targets.
Proof.
  revert blob idx. induction targets as [|t targets IH]; intros blob idx; [done|].
  rewrite patch_loop_cons. destruct (patch_one blob idx t replacement strict) eqn:E; [|done..].
  intros Hrest%IH. apply Forall_cons. split; [|done].
  by apply patch_one_Return in E.
Qed.

Lemma patch_loop_accepted blob idx targets replacement strict :
  Forall (accepted replacement strict) targets ->
  exists out, patch_loop blob idx targets replacement strict = Return out.
Proof.
  revert blob idx. induction targets as [|[s e] targets IH]; intros blob idx.
  { by exists blob. }
  intros [Ht Hrest]%Forall_cons.
  rewrite patch_loop_cons, patch_one_accepted by done.
  by apply IH.
Qed.

Lemma patch_loop_rejected blob idx pre s e post replacement strict :
  Forall (accepted replacement strict) pre ->
  ~ accepted replacement strict (s, e) ->
  patch_loop blob idx (pre ++ (s, e) :: post) replacement strict =
  Raise (if len replacement >? e - s
         then ReplacementLarger (idx + len pre) (len replacement) (e - s)
         else ReplacementSmaller (idx + len pre)).
Proof.
  revert blob idx. induction pre as [|[s' e'] pre IH]; intros blob idx Hpre Hrej.
  - rewrite app_nil_l, patch_loop_cons.
    replace (idx + len (@nil bundle)) with idx by (unfold len; simpl; lia).
    destruct (accepted_cases replacement strict s e) as [H|[H|[H ->]]]; [done| |].
    + rewrite patch_one_larger by done.
      by destruct (Z.gtb_spec (len replacement) (e - s)); [|lia].
    + rewrite patch_one_smaller by done.
      by destruct (Z.gtb_spec (len replacement) (e - s)); [lia|].
  - apply Forall_cons in Hpre as [Ht Hpre].
    rewrite <- app_comm_cons, patch_loop_cons.
    rewrite patch_one_accepted by done. rewrite IH by done.
    rewrite len_cons. by rewrite Z.add_assoc.
Qed.

Lemma patch_loop_fails blob idx targets replacement strict t :
  t ∈ targets -> ~ accepted replacement strict t ->
  exists err, patch_loop blob idx targets replacement strict = Raise err.
Proof.
  intros Hin Hrej.
  pose proof (patch_loop_fuel blob idx targets replacement strict) as Hf.
  pose proof (patch_loop_Return blob idx targets replacement strict) as Hr.
  destruct (patch_loop blob idx targets replacement strict) as [out|err|];
    [|by exists err|done].
  specialize (Hr out eq_refl). rewrite Forall_forall in Hr.
  destruct (Hrej (Hr t Hin)).
Qed.

Lemma patch_loop_frame blob idx targets replacement strict out :
  Forall (in_blob blob) targets ->
  patch_loop blob idx targets replacement strict = Return out ->
  length out = length blob /\
  forall k : nat, untouched targets (Z.of_nat k) -> out !! k = blob !! k.
Proof.
  revert blob idx.
  induction targets as [|[s e] targets IH]; intros blob idx Hin.
  { by intros [= <-]. }
  apply Forall_cons in Hin as [Ht Hin]. rewrite patch_loop_cons.
  destruct (patch_one blob idx (s, e) replacement strict) as [blob'| |] eqn:E;
    [|done..].
  pose proof (patch_one_Return _ _ _ _ _ _ E) as Hacc.
  rewrite patch_one_accepted in E by done. injection E as E.
  assert (len (padded replacement (e - s)) = e - s) as Hpad.
  { apply len_padded, Hacc. }
  assert (length blob' = length blob) as Hlen.
  { subst blob'. by apply splice_length. }
  intros Hloop. apply IH in Hloop as [Hl Hframe].
  - split; [congruence|]. intros k Hk. rewrite Hframe.
    + subst blob'. apply splice_outside; [done..|]. apply Hk. left.
    + intros s' e' Hin'. apply Hk. by right.
  - eapply Forall_impl; [done|]. intros t. by apply in_blob_length.
Qed.

Lemma slice_ext (l1 l2 : bytes) s e :
  0 <= s <= e -> e <= len l1 -> length l1 = length l2 ->
  (forall k : nat, s <= Z.of_nat k < e -> l1 !! k = l2 !! k) ->
  slice l1 s e = slice l2 s e.
Proof.
  intros Hs He Hlen Hk.
  assert (len l2 = len l1) as Hlen' by (unfold len; lia).
  apply list_eq. intros i. rewrite !slice_lookup by lia.
  case_decide; [|done]. apply Hk. lia.
Qed.

Lemma patch_loop_content blob idx targets replacement strict out :
  Forall (in_blob blob) targets -> pairwise_disjoint targets ->
  patch_loop blob idx targets replacement strict = Return out ->
  forall s e, (s, e) ∈ targets -> slice out s e = padded replacement (e - s).
Proof.
  revert blob idx.
  induction targets as [|[s e] targets IH]; intros blob idx Hin Hdis.
  { intros _ s e []%elem_of_nil. }
  apply Forall_cons in Hin as [Ht Hin]. destruct Hdis as [Hd Hdis].
  rewrite patch_loop_cons.
  destruct (patch_one blob idx (s, e) replacement strict) as [blob'| |] eqn:E;
    [|done..].
  pose proof (patch_one_Return _ _ _ _ _ _ E) as Hacc.
  rewrite patch_one_accepted in E by done. injection E as E.
  assert (len (padded replacement (e - s)) = e - s) as Hpad.
  { apply len_padded, Hacc. }
  assert (length blob' = length blob) as Hlen.
  { subst blob'. by apply splice_length. }
  assert (Forall (in_blob blob') targets) as Hin'.
  { eapply Forall_impl; [exact Hin|]. intros t. by apply in_blob_length. }
  intros Hloop s' e' [[= -> ->]|Hel]%elem_of_cons.
  - destruct (patch_loop_frame _ _ _ _ _ _ Hin' Hloop) as [Hl Hframe].
    rewrite <- (splice_inside blob (padded replacement (e - s)) s e Ht Hpad).
    rewrite E. destruct Ht as [Ht1 Ht2]. simpl in *.
    apply slice_ext; [lia|unfold len in *; lia|done|].
    intros k Hk. apply Hframe. intros s2 e2 Hel2 Hk2.
    rewrite Forall_forall in Hd. destruct (Hd _ Hel2) as [H|H]; simpl in *; lia.
  - by apply (IH blob' (idx + 1)).
Qed.

(** ** Targets handed to the patching loop *)

Lemma ordered_within_in_blob lo blob bundles :
  0 <= lo -> ordered_within lo (len blob) bundles ->
  Forall (in_blob blob) bundles.
Proof.
  intros Hlo Hord. apply Forall_lookup. intros i [s e] Hi.
  destruct (ordered_within_lookup _ _ _ _ _ _ Hord Hi) as (? & ? & ?).
  unfold in_blob. simpl. lia.
Qed.

Lemma ordered_within_selected lo hi bundles (ks : list Z) :
  ordered_within lo hi bundles -> NoDup ks ->
  Forall (in_range (len bundles)) ks ->
  pairwise_disjoint ((fun k => bundles !!! Z.to_nat k) <$> ks).
Proof.
  intros Hord. induction ks as [|k ks IH]; [done|].
  intros [Hk Hnd]%NoDup_cons [Hr Hall]%Forall_cons. simpl.
  split; [|by apply IH].
  apply Forall_fmap, Forall_forall. intros k' Hk'. simpl.
  rewrite Forall_forall in Hall. specialize (Hall k' Hk').
  unfold in_range, len in *.
  destruct (lookup_lt_is_Some_2 bundles (Z.to_nat k)) as [[s1 e1] H1]; [lia|].
  destruct (lookup_lt_is_Some_2 bundles (Z.to_nat k')) as [[s2 e2] H2]; [lia|].
  rewrite (list_lookup_total_correct _ _ _ H1).
  rewrite (list_lookup_total_correct _ _ _ H2).
  unfold disjoint. simpl.
  destruct (Z.lt_trichotomy k k') as [Hlt|[->|Hgt]]; [|done|].
  - left. eapply (ordered_within_pair _ _ _ (Z.to_nat k) (Z.to_nat k'));
      [done|lia|done|done].
  - right. eapply (ordered_within_pair _ _ _ (Z.to_nat k') (Z.to_nat k));
      [done|lia|done|done].
Qed.

Lemma ordered_within_disjoint lo hi bundles :
  ordered_within lo hi bundles -> pairwise_disjoint bundles.
Proof.
  revert lo. induction bundles as [|[s e] bundles IH]; intros lo; [done|].
  simpl. intros (H1 & H2 & H3 & H4). split; [|by eapply IH].
  apply Forall_lookup. intros i [s' e'] Hi.
  destruct (ordered_within_lookup _ _ _ _ _ _ H4 Hi) as (? & ? & ?).
  left. simpl. lia.
Qed.

Lemma select_targets_Return blob indices targets :
  select_targets blob indices = Return targets ->
  exists bundles,
    find_all_bundles blob = Return bundles /\ bundles <> [] /\
    match indices with
    | None => targets = bundles
    | Some indices => _select_bundles bundles indices = Return targets
    end.
Proof.
  unfold select_targets.
  destruct (find_all_bundles blob) as [[|t bundles]| |]; [done| |done..].
  intros H. exists (t :: bundles). split; [done|]. split; [done|].
  destruct indices; [done|]. by injection H as <-.
Qed.

Lemma select_targets_valid blob indices targets :
  select_targets blob indices = Return targets ->
  Forall (in_blob blob) targets /\ pairwise_disjoint targets.
Proof.
  intros (bundles & Hscan & _ & Hsel)%select_targets_Return.
  apply find_all_bundles_ordered in Hscan.
  destruct indices as [indices|].
  - pose proof (select_loop_Return _ _ _ _ _ Hsel) as Hall.
    rewrite select_bundles_in_range in Hsel by done. injection Hsel as <-.
    set (ks := first_occurrences (normalize (len bundles) <$> indices)).
    assert (Forall (in_range (len bundles)) ks) as Hks.
    { apply Forall_forall. intros k Hk. subst ks.
      apply first_occurrences_elem_of, list_elem_of_fmap in Hk as (i & -> & Hi).
      rewrite Forall_forall in Hall. by apply Hall. }
    split.
    + apply Forall_fmap, Forall_forall. intros k Hk. simpl.
      rewrite Forall_forall in Hks. specialize (Hks k Hk).
      unfold in_range, len in Hks.
      destruct (lookup_lt_is_Some_2 bundles (Z.to_nat k)) as [[s e] H1]; [lia|].
      rewrite (list_lookup_total_correct _ _ _ H1).
      destruct (ordered_within_lookup _ _ _ _ _ _ Hscan H1) as (? & ? & ?).
      unfold in_blob. simpl. lia.
    + eapply ordered_within_selected; [done| |done].
      apply first_occurrences_NoDup.
  - subst targets. split.
    + by eapply ordered_within_in_blob.
    + by eapply ordered_within_disjoint.
Qed.

Lemma patch_bundle_loop blob replacement indices strict targets :
  select_targets blob indices = Return targets ->
  patch_bundle blob replacement indices strict =
  patch_loop blob 0 targets replacement strict.
Proof. intros H. unfold patch_bundle. by rewrite H. Qed.

Lemma first_offender {A} (P : A -> Prop) `{!forall x, Decision (P x)} (l : list A) :
  Forall P l \/
  exists pre x post, l = pre ++ x :: post /\ Forall P pre /\ ~ P x.
Proof.
  induction l as [|a l IH]; [by left|].
  destruct (decide (P a)) as [Ha|Ha].
  - destruct IH as [IH|(pre & x & post & -> & Hpre & Hx)].
    + left. by apply Forall_cons.
    + right. exists (a :: pre), x, post. split; [done|].
      split; [by apply Forall_cons|done].
  - right. by exists [], a, l.
Qed.

(** The loop stops at the first target the policy rejects, with that
    target's error. *)
Lemma patch_loop_first_rejected blob targets replacement strict k t :
  targets !! k = Some t -> ~ accepted replacement strict t ->
  exists j t',
    (j <= k)%nat /\ targets !! j = Some t' /\
    Forall (accepted replacement strict) (take j targets) /\
    ~ accepted replacement strict t' /\
    patch_loop blob 0 targets replacement strict =
    Raise (rejection replacement (Z.of_nat j) t').
Proof.
  intros Hk Hrej.
  destruct (first_offender (accepted replacement strict) targets)
    as [Hall|(pre & [s e] & post & -> & Hpre & Hx)].
  { rewrite Forall_lookup in Hall. destruct (Hrej (Hall _ _ Hk)). }
  exists (length pre), (s, e).
  assert (length pre <= k)%nat as Hle.
  { destruct (Nat.le_gt_cases (length pre) k) as [|Hlt]; [done|].
    rewrite lookup_app_l in Hk by done.
    rewrite Forall_lookup in Hpre. destruct (Hrej (Hpre _ _ Hk)). }
  split; [done|]. split; [by rewrite list_lookup_middle|].
  split; [by rewrite take_app_length|]. split; [done|].
  rewrite patch_loop_rejected by done. unfold rejection, len. simpl.
  by rewrite Z.add_0_l.
Qed.

(** ** What a message spells out *)

Lemma prefix_append (s t : string) : String.prefix s (s ++ t)%string = true.
Proof.
  induction s as [|a s IH]; simpl; [by destruct t|].
  by destruct (ascii_dec a a).
Qed.

Lemma contains_prefix (hay needle : string) :
  String.prefix needle hay = true -> contains hay needle = true.
Proof. intros H. destruct hay; cbn [contains]; by rewrite H. Qed.

Lemma contains_here (s t : string) : contains (s ++ t)%string s = true.
Proof. apply contains_prefix, prefix_append. Qed.

Lemma contains_later (pre hay needle : string) :
  contains hay needle = true -> contains (pre ++ hay)%string needle = true.
Proof.
  intros H. induction pre as [|a pre IH]; simpl; [done|].
  rewrite IH. apply orb_true_r.
Qed.

Lemma names_IndexOutOfRange i count :
  names (IndexOutOfRange i count) i /\ names (IndexOutOfRange i count) count.
Proof.
  unfold names, message. split.
  - apply contains_later, contains_here.
  - do 3 apply contains_later. apply contains_here.
Qed.

Lemma names_ReplacementLarger idx new_len orig_len :
  names (ReplacementLarger idx new_len orig_len) idx /\
  names (ReplacementLarger idx new_len orig_len) new_len /\
  names (ReplacementLarger idx new_len orig_len) orig_len.
Proof.
  unfold names, message. repeat split.
  - apply contains_later, contains_here.
  - do 3 apply contains_later. apply contains_here.
  - do 5 apply contains_later. apply contains_here.
Qed.

Lemma names_ReplacementSmaller idx : names (ReplacementSmaller idx) idx.
Proof. unfold names, message. apply contains_later, contains_here. Qed.

(** * The claims *)

(** ** Scanner *)

(** C2. A blob whose only markers are those of two well-formed
    certificate blocks (BEGIN at [p1] and [p2], END at [q1] and [q2], in
    that order and without overlap): when the bytes between the first
    END marker and the second BEGIN marker are all among space, tab, CR
    and LF the scan returns one bundle that starts at the first BEGIN and
    ends after the second END; when some byte of that gap is not
    whitespace the scan returns two bundles, the first ending inside the
    gap and the second starting at the second BEGIN. *)
Theorem two_blocks_scan data p1 q1 p2 q2 :
  occurrences data CERT_BEGIN = [p1; p2] ->
  occurrences data CERT_END = [q1; q2] ->
  p1 + len CERT_BEGIN <= q1 ->
  q1 + len CERT_END <= p2 ->
  p2 + len CERT_BEGIN <= q2 ->
  let gap := slice data (q1 + len CERT_END) p2 in
  let e_mid := after_end data q1 in
  let e_last := after_end data q2 in
  q2 + len CERT_END <= e_last <= len data /\
  (forallb is_whitespace gap = true ->
   find_all_bundles data = Return [(p1, e_last)]) /\
  (forallb is_whitespace gap = false ->
   find_all_bundles data = Return [(p1, e_mid); (p2, e_last)] /\
   q1 + len CERT_END <= e_mid < p2).
Proof.
  change (len CERT_BEGIN) with 27. change (len CERT_END) with 25.
  intros Hb He H1 H2 H3 gap e_mid e_last. split; [|split].
  - by apply (e_last_range data p1 q1 p2 q2).
  - by apply two_blocks_merged.
  - intros Hgap.
    destruct (two_blocks_split data p1 q1 p2 q2 Hb He H1 H2 H3 Hgap) as [Hs Hm].
    split; [done|]. split; [|done].
    by apply (e_mid_range data p1 q1 p2 q2).
Qed.

Lemma two_blocks_scan_witness :
  find_all_bundles blob_adjacent = Return [(0, 118)] /\
  find_all_bundles blob_stray = Return [(0, 60); (63, 121)].
Proof.
  split.
  - apply (two_blocks_scan blob_adjacent 0 33 60 93);
      [vm_compute; reflexivity | vm_compute; reflexivity
      | by vm_compute | by vm_compute | by vm_compute
      | vm_compute; reflexivity].
  - apply (two_blocks_scan blob_stray 0 33 63 96);
      [vm_compute; reflexivity | vm_compute; reflexivity
      | by vm_compute | by vm_compute | by vm_compute
      | vm_compute; reflexivity].
Defined.

(** C5, as amended.  The scan raises no error other than the
    malformed-input one, and raises it only if some BEGIN marker has no
    END marker at or after it; it does raise it whenever some BEGIN
    marker starts at or after the end of every END marker of the blob.
    On every blob in which each BEGIN marker has an END marker at or
    after it the scan returns a bundle list, and on a blob with no BEGIN
    marker that list is empty. *)
Theorem scan_malformed data :
  (forall err, find_all_bundles data = Raise err ->
     err = MalformedBundle /\
     exists p, occurs data CERT_BEGIN p /\
               forall q, occurs data CERT_END q -> q < p) /\
  (forall p, occurs data CERT_BEGIN p ->
     (forall q, occurs data CERT_END q -> q + len CERT_END <= p) ->
     find_all_bundles data = Raise MalformedBundle) /\
  ((forall p, occurs data CERT_BEGIN p ->
      exists q, p <= q /\ occurs data CERT_END q) ->
   exists bundles, find_all_bundles data = Return bundles) /\
  ((forall p, ~ occurs data CERT_BEGIN p) ->
   find_all_bundles data = Return []).
Proof.
  split; [|split; [|split]].
  - apply find_all_bundles_raise.
  - intros p Hp Hend. by apply (find_all_bundles_unterminated data p).
  - apply find_all_bundles_terminated.
  - apply find_all_bundles_no_begin.
Qed.

Lemma scan_malformed_witness :
  find_all_bundles blob_unterminated = Raise MalformedBundle /\
  (exists bundles, find_all_bundles blob_adjacent = Return bundles) /\
  find_all_bundles bytes_80 = Return [].
Proof.
  split; [|split].
  - apply (proj1 (proj2 (scan_malformed blob_unterminated)) 59).
    + apply occurrences_spec. vm_compute. set_solver.
    + intros q Hq%occurrences_spec. vm_compute in Hq.
      apply list_elem_of_singleton in Hq as ->. by vm_compute.
  - apply (proj1 (proj2 (proj2 (scan_malformed blob_adjacent)))).
    apply terminated_spec. vm_compute. reflexivity.
  - apply (proj2 (proj2 (proj2 (scan_malformed bytes_80)))).
    intros p Hp%occurrences_spec. vm_compute in Hp. by apply elem_of_nil in Hp.
Defined.

(** The blob on which C5 fails as an equivalence: the BEGIN marker at
    offset 53 borrows the trailing dashes of the END marker at offset 33
    and has no END marker at or after it, yet the scan returns the bundle
    [(0, 58)]. *)
Lemma scan_malformed_counterexample :
  ~ (find_all_bundles blob_overlap = Raise MalformedBundle <->
     exists p, occurs blob_overlap CERT_BEGIN p /\
               forall q, occurs blob_overlap CERT_END q -> ~ p <= q).
Proof.
  intros [_ Hfail].
  assert (find_all_bundles blob_overlap = Return [(0, 58)]) as Hscan
    by (vm_compute; reflexivity).
  rewrite Hscan in Hfail. discriminate Hfail.
  exists 53. split.
  - apply occurrences_spec. vm_compute. set_solver.
  - intros q Hq%occurrences_spec. vm_compute in Hq.
    apply list_elem_of_singleton in Hq as ->. lia.
Qed.

(** C6. On every blob on which the scan succeeds, every returned bundle
    is a non-empty range of the blob ([start < end]), each bundle ends at
    or before the start of the next one, and more generally at or before
    the start of every later one. *)
Theorem scan_bundles_ordered data bundles :
  find_all_bundles data = Return bundles ->
  (forall i s e, bundles !! i = Some (s, e) ->
     0 <= s /\ s < e /\ e <= len data) /\
  (forall i s1 e1 s2 e2,
     bundles !! i = Some (s1, e1) -> bundles !! S i = Some (s2, e2) ->
     e1 <= s2 /\ s1 < s2) /\
  (forall i j s1 e1 s2 e2,
     (i < j)%nat ->
     bundles !! i = Some (s1, e1) -> bundles !! j = Some (s2, e2) ->
     e1 <= s2).
Proof.
  intros Hord%find_all_bundles_ordered. split; [|split].
  - intros i s e. by apply ordered_within_lookup.
  - intros i s1 e1 s2 e2 H1 H2.
    pose proof (ordered_within_pair _ _ _ i (S i) _ _ _ _ Hord ltac:(lia) H1 H2).
    destruct (ordered_within_lookup _ _ _ _ _ _ Hord H1) as (? & ? & ?). lia.
  - intros i j s1 e1 s2 e2 Hij. by apply (ordered_within_pair 0 (len data)).
Qed.

Lemma scan_bundles_ordered_witness :
  find_all_bundles firmware = Return [(4, 62); (64, 126)] /\
  4 < 62 /\ 62 <= 64 /\ 64 < 126.
Proof.
  assert (find_all_bundles firmware = Return [(4, 62); (64, 126)]) as Hscan
    by (vm_compute; reflexivity).
  split; [done|].
  destruct (scan_bundles_ordered firmware _ Hscan) as (H1 & H2 & _).
  pose proof (H1 0%nat 4 62 eq_refl). pose proof (H1 1%nat 64 126 eq_refl).
  pose proof (H2 0%nat 4 62 64 126 eq_refl eq_refl). lia.
Defined.

(** C10. The scan terminates on every blob: the fuel that
    [find_all_bundles] and [_scan_single] hand to their loops never runs
    out, and any larger amount gives the same result.  A scan step started
    at a cursor [pos] returns only bundles with [pos <= start < end <=
    len(data)], so the cursor grows strictly and stays within the blob.
    On a blob in which every BEGIN marker has an END marker at or after
    it the scan returns a bundle list. *)
Theorem scan_terminates data :
  find_all_bundles data <> OutOfFuel /\
  (forall fuel, (S (length data) <= fuel)%nat ->
     find_all_loop fuel data 0 [] = find_all_bundles data) /\
  (forall pos, 0 <= pos ->
     _scan_single data pos <> OutOfFuel /\
     (forall fuel, (S (length data) <= fuel)%nat ->
        _scan_single_fuel fuel data pos = _scan_single data pos) /\
     forall s e, _scan_single data pos = Return (Some (s, e)) ->
                 pos <= s /\ s < e /\ e <= len data) /\
  ((forall p, occurs data CERT_BEGIN p ->
      exists q, p <= q /\ occurs data CERT_END q) ->
   exists bundles, find_all_bundles data = Return bundles).
Proof.
  split; [|split; [|split]].
  - apply find_all_bundles_fuel.
  - apply find_all_bundles_more_fuel.
  - intros pos Hpos. split; [by apply scan_single_fuel|]. split.
    + intros fuel Hfuel. pose proof (scan_single_fuel data pos Hpos) as Hf.
      unfold _scan_single, _scan_single_fuel in *.
      destruct (find data CERT_BEGIN pos =? -1); [done|].
      by eapply scan_loop_mono.
    + intros s e Hres.
      destruct (scan_single_result data pos s e Hpos Hres) as (? & ? & ?). lia.
  - apply find_all_bundles_terminated.
Qed.

Lemma scan_terminates_witness :
  find_all_bundles blob_stray <> OutOfFuel /\
  exists bundles, find_all_bundles blob_stray = Return bundles.
Proof.
  destruct (scan_terminates blob_stray) as (H1 & _ & _ & H4).
  split; [exact H1|]. apply H4, terminated_spec. vm_compute. reflexivity.
Defined.

(** ** Selector *)

(** C7. With [n] bundles, a negative requested index [i] is normalized to
    [n + i] and any other index to itself; the selection succeeds exactly
    when every normalized index lies in [[0, n)], a single in-range
    request resolving to the bundle at its normalized index; otherwise it
    raises the out-of-range error for the first offending index, whose
    message spells out that index as requested and the bundle count [n].
    With three bundles, [[-1]] resolves to the bundle at index 2 and
    [[5]] raises the out-of-range error. *)
Theorem select_checks_range bundles indices :
  let n := len bundles in
  (forall i, i < 0 -> normalize n i = n + i) /\
  (forall i, 0 <= i -> normalize n i = i) /\
  ((exists sel, _select_bundles bundles indices = Return sel) <->
   Forall (fun i => in_range n (normalize n i)) indices) /\
  (forall i, in_range n (normalize n i) ->
     _select_bundles bundles [i] =
     Return [bundles !!! Z.to_nat (normalize n i)]) /\
  (forall pre i post,
     indices = pre ++ i :: post ->
     Forall (fun j => in_range n (normalize n j)) pre ->
     ~ in_range n (normalize n i) ->
     _select_bundles bundles indices = Raise (IndexOutOfRange i n)) /\
  (~ Forall (fun i => in_range n (normalize n i)) indices ->
   exists i, i ∈ indices /\ ~ in_range n (normalize n i) /\
             _select_bundles bundles indices = Raise (IndexOutOfRange i n) /\
             names (IndexOutOfRange i n) i /\ names (IndexOutOfRange i n) n) /\
  (forall b0 b1 b2 : bundle,
     _select_bundles [b0; b1; b2] [-1] = Return [b2] /\
     _select_bundles [b0; b1; b2] [5] = Raise (IndexOutOfRange 5 3)).
Proof.
  intros n. repeat split.
  - intros i Hi. unfold normalize. destruct (Z.ltb_spec i 0); [done|lia].
  - intros i Hi. unfold normalize. destruct (Z.ltb_spec i 0); [lia|done].
  - intros [sel Hsel]. by eapply select_loop_Return.
  - intros Hall. rewrite select_bundles_in_range by done. by eexists.
  - intros i Hi. rewrite select_bundles_in_range; [done|].
    by apply Forall_singleton.
  - intros pre i post -> Hpre Hi. by apply select_loop_out_of_range.
  - intros Hnot.
    destruct (first_offender (fun i => in_range n (normalize n i)) indices)
      as [Hall|(pre & i & post & -> & Hpre & Hi)]; [done|].
    exists i. split; [set_solver|]. split; [done|].
    split; [by apply select_loop_out_of_range|].
    apply names_IndexOutOfRange.
Qed.

Lemma select_checks_range_witness :
  _select_bundles [(4, 62); (64, 126); (200, 300)] [-1] = Return [(200, 300)] /\
  _select_bundles [(4, 62); (64, 126); (200, 300)] [0; 5; 7] =
  Raise (IndexOutOfRange 5 3).
Proof.
  pose proof (select_checks_range [(4, 62); (64, 126); (200, 300)] [-1])
    as (_ & _ & _ & Hone & _).
  pose proof (select_checks_range [(4, 62); (64, 126); (200, 300)] [0; 5; 7])
    as (_ & _ & _ & _ & Hbad & _).
  split.
  - apply (Hone (-1)). unfold in_range. vm_compute. split; [discriminate|done].
  - apply (Hbad [0] 5 [7]); [done| |].
    + apply Forall_singleton. unfold in_range. vm_compute.
      split; [discriminate|done].
    + unfold in_range. vm_compute. intros [_ H]. discriminate H.
Defined.

(** C8. For an in-range request the selected targets are the bundles at
    the normalized indices with every repetition after the first one
    dropped, in the order in which the indices were first requested: the
    list of resolved indices has no duplicates, has the same members as
    the request, is a subsequence of it, and requests made later never
    change the targets resolved from the ones before them.  Requesting
    [[2, 0]] yields the bundle at index 2 and then the one at index 0;
    requesting [[0, 2, 0]] yields the bundles at indices 0 and 2. *)
Theorem select_keeps_first_requested bundles indices :
  let n := len bundles in
  let requested := normalize n <$> indices in
  Forall (fun i => in_range n (normalize n i)) indices ->
  _select_bundles bundles indices =
    Return ((fun k => bundles !!! Z.to_nat k) <$> first_occurrences requested) /\
  NoDup (first_occurrences requested) /\
  (forall k, k ∈ first_occurrences requested <-> k ∈ requested) /\
  first_occurrences requested `sublist_of` requested /\
  (forall earlier later,
     indices = earlier ++ later ->
     first_occurrences requested =
     first_occurrences (normalize n <$> earlier) ++
     filter (fun k => k ∉ normalize n <$> earlier)
            (first_occurrences (normalize n <$> later))) /\
  (forall b0 b1 b2 : bundle,
     _select_bundles [b0; b1; b2] [2; 0] = Return [b2; b0] /\
     _select_bundles [b0; b1; b2] [0; 2; 0] = Return [b0; b2]).
Proof.
  intros n requested Hall. repeat split.
  - by apply select_bundles_in_range.
  - apply first_occurrences_NoDup.
  - by apply first_occurrences_elem_of.
  - by apply first_occurrences_elem_of.
  - apply first_occurrences_sublist.
  - intros earlier later ->. subst requested.
    by rewrite fmap_app, first_occurrences_app.
Qed.

Lemma select_keeps_first_requested_witness :
  _select_bundles [(4, 62); (64, 126); (200, 300)] [-1; 0; 2; -3] =
  Return [(200, 300); (4, 62)].
Proof.
  apply (select_keeps_first_requested
           [(4, 62); (64, 126); (200, 300)] [-1; 0; 2; -3]).
  repeat (apply Forall_cons; split; [vm_compute; split; [discriminate|done]|]).
  apply Forall_nil_2.
Defined.

(** ** Patcher *)

(** C1. Let [targets] be the ranges the scanner and the selector settle
    on for a blob.  Whenever patching succeeds, the output has the length
    of the input and agrees with it at every offset outside all targeted
    ranges; the same holds when the loop is run over the targets in any
    other order. *)
Theorem patch_frame blob replacement indices strict targets :
  select_targets blob indices = Return targets ->
  (forall out,
     patch_bundle blob replacement indices strict = Return out ->
     length out = length blob /\
     forall k : nat, untouched targets (Z.of_nat k) -> out !! k = blob !! k) /\
  (forall applied out,
     applied ≡ₚ targets ->
     patch_loop blob 0 applied replacement strict = Return out ->
     length out = length blob /\
     forall k : nat, untouched targets (Z.of_nat k) -> out !! k = blob !! k).
Proof.
  intros Hsel. destruct (select_targets_valid _ _ _ Hsel) as [Hin _]. split.
  - intros out. rewrite (patch_bundle_loop _ _ _ _ _ Hsel).
    by apply patch_loop_frame.
  - intros applied out Hperm Hloop.
    destruct (patch_loop_frame blob 0 applied replacement strict out)
      as [Hlen Hframe]; [by rewrite Hperm|done|].
    split; [done|]. intros k Hk. apply Hframe.
    intros s e Hel. apply Hk. by rewrite <- Hperm.
Qed.

Lemma patch_frame_witness :
  patch_bundle firmware replacement_58 (Some [0; 1]) false =
    Return firmware_patched /\
  length firmware_patched = length firmware /\
  firmware_patched !! 63%nat = firmware !! 63%nat.
Proof.
  assert (select_targets firmware (Some [0; 1]) = Return [(4, 62); (64, 126)])
    as Hsel by (vm_compute; reflexivity).
  assert (patch_bundle firmware replacement_58 (Some [0; 1]) false =
          Return firmware_patched) as Hpatch by (vm_compute; reflexivity).
  destruct (proj1 (patch_frame firmware replacement_58 _ false _ Hsel)
              _ Hpatch) as [Hlen Hframe].
  split; [done|]. split; [exact Hlen|]. apply (Hframe 63%nat).
  intros s e Hel.
  apply elem_of_cons in Hel as [[= -> ->]|Hel]; [lia|].
  apply list_elem_of_singleton in Hel as [= -> ->]. lia.
Defined.

(** C3. For every target range the scanner and the selector settle on:
    patching succeeds when the replacement fits every target (it is as
    long as the range, or shorter with strict mode off); and in every
    output, a range as long as the replacement holds exactly the
    replacement bytes, in strict and non-strict mode alike, while a longer
    range, which only non-strict mode lets through, holds the replacement
    followed by [(end - start) - len(replacement)] zero bytes and keeps
    its length. *)
Theorem patch_range_contents blob replacement indices strict targets :
  select_targets blob indices = Return targets ->
  (Forall (accepted replacement strict) targets ->
   exists out, patch_bundle blob replacement indices strict = Return out) /\
  (forall out s e,
     patch_bundle blob replacement indices strict = Return out ->
     (s, e) ∈ targets ->
     (len replacement = e - s -> slice out s e = replacement) /\
     (len replacement < e - s ->
      strict = false /\
      slice out s e =
        replacement ++ replicate (Z.to_nat ((e - s) - len replacement)) x00 /\
      len (slice out s e) = e - s)).
Proof.
  intros Hsel. destruct (select_targets_valid _ _ _ Hsel) as [Hin Hdis].
  rewrite (patch_bundle_loop _ _ _ _ _ Hsel). split.
  - apply patch_loop_accepted.
  - intros out s e Hloop Hel.
    pose proof (patch_loop_content _ _ _ _ _ _ Hin Hdis Hloop s e Hel) as Hc.
    pose proof (patch_loop_Return _ _ _ _ _ _ Hloop) as Hacc.
    rewrite Forall_forall in Hacc. destruct (Hacc _ Hel) as [Hle Hstrict].
    simpl in *. split.
    + intros Heq. by rewrite Hc, padded_exact.
    + intros Hlt. split.
      * destruct strict; [|done]. specialize (Hstrict eq_refl). lia.
      * rewrite Hc. split; [by apply padded_shorter|]. by apply len_padded.
Qed.

Lemma patch_range_contents_witness :
  slice firmware_patched 4 62 = replacement_58 /\
  slice firmware_patched 64 126 = replacement_58 ++ [x00; x00; x00; x00].
Proof.
  assert (select_targets firmware (Some [0; 1]) = Return [(4, 62); (64, 126)])
    as Hsel by (vm_compute; reflexivity).
  assert (patch_bundle firmware replacement_58 (Some [0; 1]) false =
          Return firmware_patched) as Hpatch by (vm_compute; reflexivity).
  pose proof (proj2 (patch_range_contents firmware replacement_58 _ false _ Hsel))
    as Hc.
  destruct (Hc firmware_patched 4 62 Hpatch) as [Hexact _]; [left|].
  destruct (Hc firmware_patched 64 126 Hpatch) as [_ Hpadded]; [right; left|].
  split.
  - apply Hexact. vm_compute. reflexivity.
  - destruct Hpadded as (_ & Hs & _); [vm_compute; reflexivity|exact Hs].
Defined.

(** C4, as amended.  A target whose range is shorter than the
    replacement is rejected by the loop body with the oversize error, in
    strict and non-strict mode alike; the error carries the target's
    position in the plan, the replacement length and the range length,
    and its message spells out all three.  A plan that contains such a
    target never yields an output blob, in either mode: the loop stops
    with the error of the first target, in plan order, that the policy
    rejects.  When every target before this one in the plan is accepted,
    that error is the oversize error of this very target; in non-strict
    mode it is always an oversize error, of a target at or before this
    one. *)
Theorem patch_rejects_oversize blob replacement strict targets k s e :
  targets !! k = Some (s, e) ->
  len replacement > e - s ->
  let err := ReplacementLarger (Z.of_nat k) (len replacement) (e - s) in
  (forall blob' idx,
     patch_one blob' idx (s, e) replacement strict =
     Raise (ReplacementLarger idx (len replacement) (e - s))) /\
  (names err (Z.of_nat k) /\ names err (len replacement) /\ names err (e - s)) /\
  (exists j t',
     (j <= k)%nat /\ targets !! j = Some t' /\
     Forall (accepted replacement strict) (take j targets) /\
     ~ accepted replacement strict t' /\
     patch_loop blob 0 targets replacement strict =
     Raise (rejection replacement (Z.of_nat j) t')) /\
  (strict = false ->
   exists j s' e',
     (j <= k)%nat /\ targets !! j = Some (s', e') /\
     len replacement > e' - s' /\
     patch_loop blob 0 targets replacement strict =
     Raise (ReplacementLarger (Z.of_nat j) (len replacement) (e' - s'))) /\
  (Forall (accepted replacement strict) (take k targets) ->
   patch_loop blob 0 targets replacement strict = Raise err) /\
  (forall indices,
     select_targets blob indices = Return targets ->
     (exists err', patch_bundle blob replacement indices strict = Raise err') /\
     (Forall (accepted replacement strict) (take k targets) ->
      patch_bundle blob replacement indices strict = Raise err)).
Proof.
  intros Hk Hlen err.
  assert (~ accepted replacement strict (s, e)) as Hrej.
  { intros [Hle _]. simpl in Hle. lia. }
  destruct (patch_loop_first_rejected blob _ _ _ _ _ Hk Hrej)
    as (j & [s' e'] & Hj & Hjt & Hpre & Hrej' & Hloop).
  assert (Forall (accepted replacement strict) (take k targets) ->
          patch_loop blob 0 targets replacement strict = Raise err) as Hfirst.
  { intros Hall. rewrite <- (take_drop_middle targets k (s, e)) at 1 by done.
    rewrite patch_loop_rejected by done.
    destruct (Z.gtb_spec (len replacement) (e - s)); [|lia].
    replace (0 + len (take k targets)) with (Z.of_nat k); [done|].
    unfold len. rewrite length_take. apply lookup_lt_Some in Hk. lia. }
  split; [|split; [|split; [|split; [|split]]]].
  - intros blob' idx. by apply patch_one_larger.
  - apply names_ReplacementLarger.
  - by exists j, (s', e').
  - intros ->. exists j, s', e'.
    destruct (accepted_cases replacement false s' e') as [H|[H|[_ [=]]]]; [done|].
    repeat (split; [done|]). rewrite Hloop. unfold rejection. simpl.
    by destruct (Z.gtb_spec (len replacement) (e' - s')); [|lia].
  - done.
  - intros indices Hsel. rewrite (patch_bundle_loop _ _ _ _ _ Hsel).
    split; [by eexists|done].
Qed.

Lemma patch_rejects_oversize_witness :
  patch_bundle blob_100 bytes_120 None false =
    Raise (ReplacementLarger 0 120 100) /\
  patch_bundle blob_100 bytes_120 None true =
    Raise (ReplacementLarger 0 120 100).
Proof.
  assert (select_targets blob_100 None = Return [(0, 100)]) as Hsel
    by (vm_compute; reflexivity).
  split.
  - apply (patch_rejects_oversize blob_100 bytes_120 false [(0, 100)] 0 0 100);
      [done|by vm_compute|done|apply Forall_nil_2].
  - apply (patch_rejects_oversize blob_100 bytes_120 true [(0, 100)] 0 0 100);
      [done|by vm_compute|done|apply Forall_nil_2].
Defined.

(** The input on which C4 fails as stated: the two bundles of
    [firmware] requested as [[1, 0]], a 60-byte replacement and strict
    mode.  The second target of the plan (58 bytes) is shorter than the
    replacement, but the loop stops at the first one (62 bytes) with the
    undersize error, so no oversize error is raised. *)
Lemma patch_rejects_oversize_counterexample :
  select_targets firmware (Some [1; 0]) = Return [(64, 126); (4, 62)] /\
  len bytes_60 > 62 - 4 /\
  patch_bundle firmware bytes_60 (Some [1; 0]) true =
    Raise (ReplacementSmaller 0) /\
  ~ (exists idx new_len orig_len,
       patch_bundle firmware bytes_60 (Some [1; 0]) true =
       Raise (ReplacementLarger idx new_len orig_len)).
Proof.
  assert (patch_bundle firmware bytes_60 (Some [1; 0]) true =
          Raise (ReplacementSmaller 0)) as Hpatch by (vm_compute; reflexivity).
  split; [vm_compute; reflexivity|]. split; [vm_compute; reflexivity|].
  split; [exact Hpatch|].
  intros (idx & new_len & orig_len & H). rewrite Hpatch in H. discriminate H.
Qed.

(** C9, as amended.  In strict mode a target whose range is longer than
    the replacement is rejected by the loop body with the undersize
    error, which carries the target's position in the plan and nothing
    else: its message spells out that position and is the same whatever
    the two lengths are.  A plan that contains such a target never yields
    an output blob, padded or not: the loop stops with the error of the
    first target, in plan order, that the policy rejects.  When every
    target before this one in the plan is accepted, that error is the
    undersize error of this very target. *)
Theorem patch_rejects_undersize_strict blob replacement targets k s e :
  targets !! k = Some (s, e) ->
  len replacement < e - s ->
  let err := ReplacementSmaller (Z.of_nat k) in
  (forall blob' idx,
     patch_one blob' idx (s, e) replacement true =
     Raise (ReplacementSmaller idx)) /\
  (names err (Z.of_nat k) /\
   message err =
   ("Replacement bundle smaller than original (target #" ++ str (Z.of_nat k)
      ++ ") and --strict specified")%string) /\
  (exists j t',
     (j <= k)%nat /\ targets !! j = Some t' /\
     Forall (accepted replacement true) (take j targets) /\
     ~ accepted replacement true t' /\
     patch_loop blob 0 targets replacement true =
     Raise (rejection replacement (Z.of_nat j) t')) /\
  (Forall (accepted replacement true) (take k targets) ->
   patch_loop blob 0 targets replacement true = Raise err) /\
  (forall indices,
     select_targets blob indices = Return targets ->
     (exists err', patch_bundle blob replacement indices true = Raise err') /\
     (Forall (accepted replacement true) (take k targets) ->
      patch_bundle blob replacement indices true = Raise err)).
Proof.
  intros Hk Hlen err.
  assert (~ accepted replacement true (s, e)) as Hrej.
  { intros [_ Heq]. specialize (Heq eq_refl). simpl in Heq. lia. }
  destruct (patch_loop_first_rejected blob _ _ _ _ _ Hk Hrej)
    as (j & t' & Hj & Hjt & Hpre & Hrej' & Hloop).
  assert (Forall (accepted replacement true) (take k targets) ->
          patch_loop blob 0 targets replacement true = Raise err) as Hfirst.
  { intros Hall. rewrite <- (take_drop_middle targets k (s, e)) at 1 by done.
    rewrite patch_loop_rejected by done.
    destruct (Z.gtb_spec (len replacement) (e - s)); [lia|].
    replace (0 + len (take k targets)) with (Z.of_nat k); [done|].
    unfold len. rewrite length_take. apply lookup_lt_Some in Hk. lia. }
  split; [|split; [|split; [|split]]].
  - intros blob' idx. by apply patch_one_smaller.
  - split; [apply names_ReplacementSmaller|done].
  - by exists j, t'.
  - done.
  - intros indices Hsel. rewrite (patch_bundle_loop _ _ _ _ _ Hsel).
    split; [by eexists|done].
Qed.

Lemma patch_rejects_undersize_strict_witness :
  patch_bundle blob_100 bytes_80 None true = Raise (ReplacementSmaller 0).
Proof.
  assert (select_targets blob_100 None = Return [(0, 100)]) as Hsel
    by (vm_compute; reflexivity).
  apply (patch_rejects_undersize_strict blob_100 bytes_80 [(0, 100)] 0 0 100);
    [done|by vm_compute|done|apply Forall_nil_2].
Defined.

(** The input on which C9 fails as stated: a 100-byte bundle, an 80-byte
    replacement and strict mode.  The error raised is the undersize one
    for target 0, and its message spells out neither 80 nor 100. *)
Lemma patch_rejects_undersize_counterexample :
  ~ (exists err,
       patch_bundle blob_100 bytes_80 None true = Raise err /\
       names err 0 /\ names err (len bytes_80) /\ names err (100 - 0)).
Proof.
  intros (err & Hpatch & _ & H80 & _).
  vm_compute in Hpatch. injection Hpatch as <-.
  vm_compute in H80. discriminate H80.
Qed.

(** * Further properties *)

(** ** What a scan step returns *)

Lemma after_end_spec data q :
  occurs data CERT_END q ->
  q + len CERT_END <= after_end data q <= len data /\
  (forall k, q + len CERT_END <= k < after_end data q ->
     exists c, data !! Z.to_nat k = Some c /\ is_whitespace c = true) /\
  (forall c, data !! Z.to_nat (after_end data q) = Some c ->
     is_whitespace c = false).
Proof.
  intros (Hq & Hb & _). unfold after_end. rewrite len_CERT_END in *.
  apply eat_whitespace_data. lia.
Qed.

Lemma scan_loop_end fuel data start c s e :
  0 <= c -> scan_loop fuel data start c = Return (Some (s, e)) ->
  exists q, c <= q /\ occurs data CERT_END q /\ e = after_end data q /\
            ~ occurs data CERT_BEGIN e.
Proof.
  revert c. induction fuel as [|fuel IH]; intros c Hc; [done|].
  destruct (scan_loop_step fuel data start c Hc)
    as [[_ ->]|(q & e2 & Hq & Hoq & _ & He2 & Hr & [[_ ->]|[Hno ->]])]; [done| |].
  - intros (q' & Hq' & H)%IH; [|lia]. exists q'. split; [lia|done].
  - intros [= <- <-]. exists q. rewrite after_end_eq, <- He2. done.
Qed.

Lemma scan_single_None data pos :
  0 <= pos ->
  _scan_single data pos = Return None <->
  forall p, pos <= p -> ~ occurs data CERT_BEGIN p.
Proof.
  intros Hpos. unfold _scan_single.
  destruct (scan_single_step (S (length data)) data pos Hpos)
    as [[Hno ->]|(start & H1 & H2 & _ & ->)]; [done|].
  split.
  - intros H. by apply scan_loop_not_None in H; [|lia].
  - intros Hno. by destruct (Hno start).
Qed.

Lemma scan_single_Some data pos s e :
  0 <= pos -> _scan_single data pos = Return (Some (s, e)) ->
  pos <= s /\ occurs data CERT_BEGIN s /\
  (forall p, pos <= p < s -> ~ occurs data CERT_BEGIN p) /\
  exists q, s <= q /\ occurs data CERT_END q /\ e = after_end data q /\
            ~ occurs data CERT_BEGIN e.
Proof.
  intros Hpos. unfold _scan_single.
  destruct (scan_single_step (S (length data)) data pos Hpos)
    as [[_ ->]|(start & H1 & H2 & H3 & ->)]; [done|].
  intros Hloop. pose proof Hloop as Hres.
  apply scan_loop_result in Hres as [-> _]; [|lia].
  apply scan_loop_end in Hloop; [|lia]. done.
Qed.

(** ** The bundle list as a run of scan steps *)

Lemma find_all_loop_trace fuel data pos acc bundles :
  find_all_loop fuel data pos acc = Return bundles ->
  exists rest, bundles = acc ++ rest /\ scan_trace data pos rest.
Proof.
  revert pos acc. induction fuel as [|fuel IH]; intros pos acc; [done|].
  rewrite find_all_loop_S.
  destruct (_scan_single data pos) as [[[s e]|]|err|] eqn:E; [| |done..].
  - intros (rest & -> & Htr)%IH. exists ((s, e) :: rest).
    rewrite <- app_assoc. done.
  - intros [= <-]. exists []. by rewrite app_nil_r.
Qed.

Lemma find_all_bundles_trace data bundles :
  find_all_bundles data = Return bundles -> scan_trace data 0 bundles.
Proof. by intros (rest & -> & Htr)%find_all_loop_trace. Qed.

Lemma scan_trace_lookup data pos bundles i s e :
  0 <= pos -> scan_trace data pos bundles -> bundles !! i = Some (s, e) ->
  exists pos', 0 <= pos' /\ _scan_single data pos' = Return (Some (s, e)) /\
               scan_trace data e (drop (S i) bundles).
Proof.
  revert pos i. induction bundles as [|[s' e'] bundles IH]; intros pos i Hpos;
    [done|].
  intros [Hstep Htr]. destruct i as [|i]; simpl.
  - intros [= <- <-]. by exists pos.
  - apply (IH e'); [|done].
    destruct (scan_single_result _ _ _ _ Hpos Hstep) as (? & ? & ?). lia.
Qed.

Lemma scan_trace_covers data pos bundles p :
  0 <= pos -> scan_trace data pos bundles ->
  pos <= p -> occurs data CERT_BEGIN p ->
  exists s e, (s, e) ∈ bundles /\ s <= p < e.
Proof.
  revert pos. induction bundles as [|[s e] bundles IH]; intros pos Hpos.
  - intros Hnone Hp Hocc. simpl in Hnone.
    pose proof (proj1 (scan_single_None data pos Hpos) Hnone) as Hno.
    by destruct (Hno p).
  - intros [Hstep Htr] Hp Hocc.
    destruct (scan_single_Some _ _ _ _ Hpos Hstep) as (H1 & _ & H3 & _).
    destruct (scan_single_result _ _ _ _ Hpos Hstep) as (_ & _ & H4).
    destruct (Z.lt_ge_cases p e) as [Hlt|Hge].
    + exists s, e. split; [left|]. split; [|done].
      destruct (Z.le_gt_cases s p); [done|]. destruct (H3 p); [lia|done].
    + destruct (IH e) as (s' & e' & Hin & Hr); [lia|done|lia|done|].
      exists s', e'. split; [by right|done].
Qed.

(** X1. When the scan succeeds, no certificate is missed: every BEGIN
    marker of the blob starts inside one of the returned bundles, every
    returned bundle starts at a BEGIN marker, and the list is empty
    exactly when the blob has no BEGIN marker. *)
Theorem scan_covers_every_begin data bundles :
  find_all_bundles data = Return bundles ->
  (forall p, occurs data CERT_BEGIN p ->
     exists s e, (s, e) ∈ bundles /\ s <= p < e) /\
  (forall s e, (s, e) ∈ bundles -> occurs data CERT_BEGIN s) /\
  (bundles = [] <-> forall p, ~ occurs data CERT_BEGIN p).
Proof.
  intros Htr%find_all_bundles_trace.
  assert (forall p, occurs data CERT_BEGIN p ->
            exists s e, (s, e) ∈ bundles /\ s <= p < e) as Hcov.
  { intros p Hp. pose proof Hp as (H0 & _).
    by apply (scan_trace_covers data 0 bundles p). }
  assert (forall s e, (s, e) ∈ bundles -> occurs data CERT_BEGIN s) as Hstart.
  { intros s e (i & Hi)%list_elem_of_lookup_1.
    destruct (scan_trace_lookup data 0 bundles i s e) as (pos' & Hpos' & Hs & _);
      [lia|done..|].
    by destruct (scan_single_Some _ _ _ _ Hpos' Hs) as (_ & ? & _). }
  split; [done|]. split; [done|]. split.
  - intros -> p Hp. destruct (Hcov p Hp) as (s & e & Hin & _).
    by apply elem_of_nil in Hin.
  - intros Hno. destruct bundles as [|[s e] bundles]; [done|].
    destruct (Hno s). apply (Hstart s e). left.
Qed.

Lemma scan_covers_every_begin_witness :
  exists s e, (s, e) ∈ [(0, 58)] /\ s <= 53 < e.
Proof.
  assert (find_all_bundles blob_overlap = Return [(0, 58)]) as Hscan
    by (vm_compute; reflexivity).
  apply (proj1 (scan_covers_every_begin blob_overlap _ Hscan) 53).
  apply occurrences_spec. vm_compute. set_solver.
Defined.

(** X2. What [_scan_single] returns for a cursor [pos >= 0]: [None]
    exactly when no BEGIN marker starts at or after [pos]; otherwise a
    bundle whose start is the first BEGIN marker at or after [pos] and
    whose end lies after an END marker found at or after that start,
    with nothing but whitespace between that marker and the end, at a
    place where neither a whitespace byte nor a BEGIN marker follows. *)
Theorem scan_single_returns data pos :
  0 <= pos ->
  (_scan_single data pos = Return None <->
   forall p, pos <= p -> ~ occurs data CERT_BEGIN p) /\
  (forall s e,
     _scan_single data pos = Return (Some (s, e)) ->
     pos <= s /\ occurs data CERT_BEGIN s /\
     (forall p, pos <= p < s -> ~ occurs data CERT_BEGIN p) /\
     exists q,
       s <= q /\ occurs data CERT_END q /\
       q + len CERT_END <= e <= len data /\
       (forall k, q + len CERT_END <= k < e ->
          exists c, data !! Z.to_nat k = Some c /\ is_whitespace c = true) /\
       (forall c, data !! Z.to_nat e = Some c -> is_whitespace c = false) /\
       ~ occurs data CERT_BEGIN e).
Proof.
  intros Hpos. split; [by apply scan_single_None|].
  intros s e Hstep.
  destruct (scan_single_Some _ _ _ _ Hpos Hstep)
    as (H1 & H2 & H3 & q & Hq & Hoq & -> & Hno).
  repeat (split; [done|]). exists q.
  destruct (after_end_spec data q Hoq) as (Hr & Hws & Hstop).
  repeat (split; [done|]). done.
Qed.

Lemma scan_single_returns_witness :
  _scan_single firmware 5 = Return (Some (64, 126)) /\
  64 + 25 <= 126 /\ _scan_single firmware 65 = Return None.
Proof.
  assert (_scan_single firmware 5 = Return (Some (64, 126))) as Hstep
    by (vm_compute; reflexivity).
  destruct (scan_single_returns firmware 5 ltac:(lia)) as [_ Hsome].
  destruct (Hsome 64 126 Hstep) as (_ & _ & _ & q & Hq & _ & Hr & _).
  split; [done|]. split; [lia|].
  apply (scan_single_returns firmware 65); [lia|].
  intros p Hp Hocc%occurrences_spec. vm_compute in Hocc.
  apply elem_of_cons in Hocc as [->|Hocc]; [lia|].
  apply list_elem_of_singleton in Hocc as ->. lia.
Defined.

Lemma forallb_false_at {A} (f : A -> bool) (l : list A) i c :
  l !! i = Some c -> f c = false -> forallb f l = false.
Proof.
  intros Hi Hc. destruct (forallb f l) eqn:E; [|done].
  rewrite (proj1 (forallb_lookup f l) E i c Hi) in Hc. done.
Qed.

(** X3. Bundles that only whitespace separates are merged: between two
    consecutive bundles of a successful scan there is at least one byte,
    the byte right after the first bundle is not whitespace, so the gap
    is never whitespace only, and no BEGIN marker starts in the gap. *)
Theorem scan_separates_bundles data bundles i s1 e1 s2 e2 :
  find_all_bundles data = Return bundles ->
  bundles !! i = Some (s1, e1) -> bundles !! S i = Some (s2, e2) ->
  e1 < s2 /\
  (exists c, data !! Z.to_nat e1 = Some c /\ is_whitespace c = false) /\
  forallb is_whitespace (slice data e1 s2) = false /\
  (forall p, e1 <= p < s2 -> ~ occurs data CERT_BEGIN p).
Proof.
  intros Hscan H1 H2. pose proof (find_all_bundles_trace _ _ Hscan) as Htr.
  pose proof (find_all_bundles_ordered _ _ Hscan) as Hord.
  destruct (ordered_within_lookup _ _ _ _ _ _ Hord H1) as (Hs1 & _ & _).
  destruct (ordered_within_lookup _ _ _ _ _ _ Hord H2) as (_ & _ & He2).
  destruct (scan_trace_lookup data 0 bundles i s1 e1) as (pos1 & Hp1 & Hst1 & Hrest);
    [lia|done..|].
  rewrite (drop_S _ (s2, e2)) in Hrest by done. destruct Hrest as [Hst2 _].
  destruct (scan_single_returns data pos1 Hp1) as [_ Hsome1].
  destruct (Hsome1 _ _ Hst1)
    as (_ & _ & _ & q & Hq & Hoq & Hr & _ & Hstop & Hno); clear Hsome1.
  pose proof Hoq as (Hq0 & _).
  assert (0 <= e1) as He1 by (rewrite len_CERT_END in Hr; lia).
  destruct (scan_single_Some _ _ _ _ He1 Hst2) as (Hle & Hb2 & Hfirst & _).
  pose proof Hb2 as (_ & Hb2' & _). rewrite len_CERT_BEGIN in Hb2'.
  assert (e1 < s2) as Hlt.
  { destruct (Z.le_gt_cases s2 e1); [|done].
    replace s2 with e1 in Hb2 by lia. done. }
  destruct (lookup_lt_is_Some_2 data (Z.to_nat e1)) as [c Hc].
  { unfold len in *. lia. }
  pose proof (Hstop c Hc) as Hnw.
  split; [done|]. split; [by exists c|]. split; [|done].
  apply (forallb_false_at _ _ 0%nat c); [|done].
  rewrite slice_lookup by lia. rewrite decide_True by lia.
  by rewrite Nat.add_0_r.
Qed.

Lemma scan_separates_bundles_witness :
  60 < 63 /\ forallb is_whitespace (slice blob_stray 60 63) = false.
Proof.
  assert (find_all_bundles blob_stray = Return [(0, 60); (63, 121)]) as Hscan
    by (vm_compute; reflexivity).
  destruct (scan_separates_bundles blob_stray _ 0 0 60 63 121 Hscan eq_refl eq_refl)
    as (H1 & _ & H3 & _).
  split; [exact H1|exact H3].
Defined.

(** ** More on selection *)

Lemma select_bundles_Return bundles indices sel :
  _select_bundles bundles indices = Return sel ->
  Forall (fun i => in_range (len bundles) (normalize (len bundles) i)) indices /\
  sel = (fun k => bundles !!! Z.to_nat k) <$>
        first_occurrences (normalize (len bundles) <$> indices).
Proof.
  intros Hsel. pose proof (select_loop_Return _ _ _ _ _ Hsel) as Hall.
  split; [done|]. rewrite select_bundles_in_range in Hsel by done.
  by injection Hsel as <-.
Qed.

Lemma select_loop_Raise bundles indices selected seen err :
  select_loop bundles indices selected seen = Raise err ->
  exists i, err = IndexOutOfRange i (len bundles) /\ i ∈ indices /\
            ~ in_range (len bundles) (normalize (len bundles) i).
Proof.
  intros Hsel.
  destruct (first_offender
              (fun i => in_range (len bundles) (normalize (len bundles) i))
              indices) as [Hall|(pre & i & post & -> & Hpre & Hi)].
  - by rewrite select_loop_in_range in Hsel.
  - rewrite select_loop_out_of_range in Hsel by done. injection Hsel as <-.
    exists i. split; [done|]. split; [|done].
    apply elem_of_app. right. left.
Qed.

Lemma first_occurrences_id l : NoDup l -> first_occurrences l = l.
Proof.
  induction l as [|x l IH]; [done|]. intros [Hx Hl]%NoDup_cons. simpl.
  rewrite IH by done. f_equal. apply filter_all. by intros y Hy ->.
Qed.

Lemma lookup_total_seqZ (bundles : list bundle) :
  (fun k => bundles !!! Z.to_nat k) <$> seqZ 0 (len bundles) = bundles.
Proof.
  apply list_eq. intros i. rewrite list_lookup_fmap.
  destruct (bundles !! i) as [t|] eqn:E.
  - rewrite lookup_seqZ_lt by (apply lookup_lt_Some in E; unfold len; lia).
    simpl. f_equal. replace (Z.to_nat (0 + Z.of_nat i)) with i by lia.
    by apply list_lookup_total_correct.
  - rewrite lookup_seqZ_ge; [done|]. apply lookup_ge_None in E. unfold len. lia.
Qed.

Lemma fmap_lookup_NoDup (bundles : list bundle) (ks : list Z) :
  NoDup bundles -> NoDup ks -> Forall (in_range (len bundles)) ks ->
  NoDup ((fun k => bundles !!! Z.to_nat k) <$> ks).
Proof.
  intros Hnd. induction ks as [|k ks IH]; [constructor|].
  intros [Hk Hks]%NoDup_cons [Hr Hall]%Forall_cons. simpl.
  apply NoDup_cons. split; [|by apply IH].
  intros (k' & Heq & Hk')%list_elem_of_fmap.
  rewrite Forall_forall in Hall. specialize (Hall k' Hk').
  unfold in_range, len in *.
  destruct (lookup_lt_is_Some_2 bundles (Z.to_nat k)) as [t1 H1]; [lia|].
  destruct (lookup_lt_is_Some_2 bundles (Z.to_nat k')) as [t2 H2]; [lia|].
  rewrite (list_lookup_total_correct _ _ _ H1) in Heq.
  rewrite (list_lookup_total_correct _ _ _ H2) in Heq. subst t2.
  pose proof (NoDup_lookup _ _ _ _ Hnd H1 H2). apply Hk.
  by replace k with k' by lia.
Qed.

(** X4. A successful selection never invents or repeats a range: every
    selected target is one of the bundles, there are at most as many
    targets as requested indices, and when the bundles are pairwise
    distinct, as the scanner's always are, the targets are pairwise
    distinct too and at most as many as the bundles. *)
Theorem select_within_bundles bundles indices sel :
  _select_bundles bundles indices = Return sel ->
  (forall t, t ∈ sel -> t ∈ bundles) /\
  (length sel <= length indices)%nat /\
  (NoDup bundles -> NoDup sel /\ (length sel <= length bundles)%nat).
Proof.
  intros [Hall ->]%select_bundles_Return.
  set (ks := first_occurrences (normalize (len bundles) <$> indices)).
  assert (Forall (in_range (len bundles)) ks) as Hks.
  { apply Forall_forall. intros k Hk. subst ks.
    apply first_occurrences_elem_of, list_elem_of_fmap in Hk as (i & -> & Hi).
    rewrite Forall_forall in Hall. by apply Hall. }
  assert (forall t, t ∈ (fun k => bundles !!! Z.to_nat k) <$> ks -> t ∈ bundles)
    as Hsub.
  { intros t (k & -> & Hk)%list_elem_of_fmap.
    rewrite Forall_forall in Hks. specialize (Hks k Hk).
    apply list_elem_of_lookup_total_2. unfold in_range, len in Hks. lia. }
  split; [done|]. split.
  - rewrite length_fmap. subst ks.
    etrans; [apply sublist_length, first_occurrences_sublist|].
    by rewrite length_fmap.
  - intros Hnd.
    assert (NoDup ((fun k => bundles !!! Z.to_nat k) <$> ks)) as Hsel.
    { apply fmap_lookup_NoDup; [done| |done]. apply first_occurrences_NoDup. }
    split; [done|]. by apply submseteq_length, NoDup_submseteq.
Qed.

Lemma select_within_bundles_witness :
  Nat.le (length [(200, 300); (4, 62)]) (length [-1; 0; 2; -3]).
Proof.
  apply (select_within_bundles [(4, 62); (64, 126); (200, 300)] [-1; 0; 2; -3]).
  vm_compute. reflexivity.
Defined.

(** X5. Asking for every index, counted from the front ([0 .. n-1]) or
    from the back ([-n .. -1]), selects all bundles in scan order, so
    patching with such an index list does what patching without one
    does. *)
Theorem select_all_is_default blob replacement strict bundles :
  find_all_bundles blob = Return bundles ->
  _select_bundles bundles (seqZ 0 (len bundles)) = Return bundles /\
  _select_bundles bundles (seqZ (- len bundles) (len bundles)) = Return bundles /\
  patch_bundle blob replacement (Some (seqZ 0 (len bundles))) strict =
    patch_bundle blob replacement None strict /\
  patch_bundle blob replacement (Some (seqZ (- len bundles) (len bundles))) strict =
    patch_bundle blob replacement None strict.
Proof.
  intros Hscan.
  assert (normalize (len bundles) <$> seqZ 0 (len bundles) =
          seqZ 0 (len bundles)) as Hfront.
  { apply list_eq. intros i. rewrite list_lookup_fmap.
    destruct (seqZ 0 (len bundles) !! i) as [k|] eqn:E; [|done].
    apply lookup_seqZ in E as [-> Hi]. simpl. f_equal.
    unfold normalize. destruct (Z.ltb_spec (0 + Z.of_nat i) 0); [lia|done]. }
  assert (normalize (len bundles) <$> seqZ (- len bundles) (len bundles) =
          seqZ 0 (len bundles)) as Hback.
  { apply list_eq. intros i. rewrite list_lookup_fmap.
    destruct (seqZ (- len bundles) (len bundles) !! i) as [k|] eqn:E.
    - apply lookup_seqZ in E as [-> Hi]. simpl.
      rewrite lookup_seqZ_lt by done. f_equal. unfold normalize.
      destruct (Z.ltb_spec (- len bundles + Z.of_nat i) 0); lia.
    - simpl. symmetry. apply lookup_seqZ_ge. apply lookup_ge_None in E.
      rewrite length_seqZ in E. lia. }
  assert (Forall (in_range (len bundles)) (seqZ 0 (len bundles))) as Hin.
  { apply Forall_forall. intros k Hk%elem_of_seqZ. unfold in_range. lia. }
  assert (_select_bundles bundles (seqZ 0 (len bundles)) = Return bundles) as H1.
  { rewrite select_bundles_in_range.
    - rewrite Hfront, first_occurrences_id by apply NoDup_seqZ.
      by rewrite lookup_total_seqZ.
    - apply Forall_forall. intros i Hi.
      apply (list_elem_of_fmap_2 (normalize (len bundles))) in Hi.
      rewrite Hfront in Hi. rewrite Forall_forall in Hin. by apply Hin. }
  assert (_select_bundles bundles (seqZ (- len bundles) (len bundles)) =
          Return bundles) as H2.
  { rewrite select_bundles_in_range.
    - rewrite Hback, first_occurrences_id by apply NoDup_seqZ.
      by rewrite lookup_total_seqZ.
    - apply Forall_forall. intros i Hi.
      apply (list_elem_of_fmap_2 (normalize (len bundles))) in Hi.
      rewrite Hback in Hi. rewrite Forall_forall in Hin. by apply Hin. }
  split; [done|]. split; [done|].
  unfold patch_bundle, select_targets. rewrite Hscan.
  destruct bundles as [|t bundles]; [done|]. by rewrite H1, H2.
Qed.

Lemma select_all_is_default_witness :
  patch_bundle firmware replacement_58 (Some [0; 1]) false =
  patch_bundle firmware replacement_58 None false.
Proof.
  assert (find_all_bundles firmware = Return [(4, 62); (64, 126)]) as Hscan
    by (vm_compute; reflexivity).
  exact (proj1 (proj2 (proj2
           (select_all_is_default firmware replacement_58 false _ Hscan)))).
Defined.

(** ** More on patching *)

Lemma patch_loop_Raise blob targets replacement strict err :
  patch_loop blob 0 targets replacement strict = Raise err ->
  exists j t,
    targets !! j = Some t /\
    Forall (accepted replacement strict) (take j targets) /\
    ~ accepted replacement strict t /\
    err = rejection replacement (Z.of_nat j) t.
Proof.
  intros Hloop.
  destruct (first_offender (accepted replacement strict) targets)
    as [Hall|(pre & t & post & -> & Hpre & Ht)].
  - destruct (patch_loop_accepted blob 0 _ _ _ Hall) as [out Hout]. congruence.
  - destruct (patch_loop_first_rejected blob (pre ++ t :: post) replacement
                strict (length pre) t) as (j & t' & _ & Hj & Hpre' & Ht' & Heq);
      [by rewrite list_lookup_middle|done|].
    exists j, t'. rewrite Heq in Hloop. by injection Hloop as <-.
Qed.

Lemma disjoint_sym t1 t2 : disjoint t1 t2 -> disjoint t2 t1.
Proof. unfold disjoint. tauto. Qed.

Lemma pairwise_disjoint_perm l1 l2 :
  l1 ≡ₚ l2 -> pairwise_disjoint l1 -> pairwise_disjoint l2.
Proof.
  induction 1 as [|x l l' Hperm IH|x y l|l l' l'' _ IH1 _ IH2]; simpl.
  - done.
  - intros [Hx Hl]. split; [by rewrite <- Hperm|by apply IH].
  - intros [[Hyx Hy]%Forall_cons [Hx Hl]]. split; [|done].
    apply Forall_cons. split; [by apply disjoint_sym|done].
  - intros Hl. by apply IH2, IH1.
Qed.

Lemma untouched_not_touched targets k :
  untouched targets k <-> ~ touched targets k.
Proof.
  unfold untouched, touched. rewrite Exists_exists. split.
  - intros Hun ([s e] & Hin & Hk). by apply (Hun s e).
  - intros Hno s e Hin Hk. apply Hno. by exists (s, e).
Qed.

Lemma lookup_padded replacement n (i : nat) :
  len replacement <= n -> Z.of_nat i < n ->
  padded replacement n !! i =
  Some (default x00 (replacement !! i)).
Proof.
  intros Hle Hi. unfold padded.
  destruct (Z.ltb_spec (len replacement) n) as [Hlt|Hge].
  - destruct (replacement !! i) as [c|] eqn:E; simpl.
    + by apply lookup_app_l_Some.
    + apply lookup_ge_None in E. rewrite lookup_app_r by done.
      apply lookup_replicate_2. unfold len in *. lia.
  - destruct (lookup_lt_is_Some_2 replacement i) as [c Hc].
    { unfold len in *. lia. }
    by rewrite Hc.
Qed.

(** The output of a successful run, byte by byte. *)
Lemma patch_loop_pointwise blob idx targets replacement strict out :
  Forall (in_blob blob) targets -> pairwise_disjoint targets ->
  patch_loop blob idx targets replacement strict = Return out ->
  length out = length blob /\
  forall k : nat,
    (untouched targets (Z.of_nat k) -> out !! k = blob !! k) /\
    (forall s e, (s, e) ∈ targets -> s <= Z.of_nat k < e ->
       out !! k =
       Some (default x00 (replacement !! Z.to_nat (Z.of_nat k - s)))).
Proof.
  intros Hin Hdis Hloop.
  destruct (patch_loop_frame _ _ _ _ _ _ Hin Hloop) as [Hlen Hframe].
  split; [done|]. intros k. split; [apply Hframe|].
  intros s e Hel Hk.
  pose proof (patch_loop_content _ _ _ _ _ _ Hin Hdis Hloop s e Hel) as Hc.
  pose proof (patch_loop_Return _ _ _ _ _ _ Hloop) as Hacc.
  rewrite Forall_forall in Hacc, Hin.
  destruct (Hacc _ Hel) as [Hle _]. destruct (Hin _ Hel) as [Hs He].
  simpl in *.
  assert (slice out s e !! Z.to_nat (Z.of_nat k - s) = out !! k) as <-.
  { rewrite slice_lookup by (unfold len in *; lia).
    rewrite decide_True by lia. f_equal. lia. }
  rewrite Hc. apply lookup_padded; lia.
Qed.

(** Two successful runs over the same blob and the same set of disjoint
    ranges write the same output. *)
Lemma patch_loop_same_output blob idx1 idx2 targets1 targets2 replacement
    strict1 strict2 out1 out2 :
  Forall (in_blob blob) targets1 -> pairwise_disjoint targets1 ->
  targets2 ≡ₚ targets1 ->
  patch_loop blob idx1 targets1 replacement strict1 = Return out1 ->
  patch_loop blob idx2 targets2 replacement strict2 = Return out2 ->
  out1 = out2.
Proof.
  intros Hin Hdis Hperm H1 H2.
  assert (Forall (in_blob blob) targets2) as Hin2 by by rewrite Hperm.
  assert (pairwise_disjoint targets2) as Hdis2.
  { by apply (pairwise_disjoint_perm targets1). }
  destruct (patch_loop_pointwise _ _ _ _ _ _ Hin Hdis H1) as [Hl1 Hp1].
  destruct (patch_loop_pointwise _ _ _ _ _ _ Hin2 Hdis2 H2) as [Hl2 Hp2].
  apply list_eq. intros k.
  destruct (decide (touched targets1 (Z.of_nat k))) as [Ht|Ht].
  - apply Exists_exists in Ht as ([s e] & Hel & Hk). simpl in Hk.
    rewrite (proj2 (Hp1 k) s e Hel Hk).
    rewrite (proj2 (Hp2 k) s e); [done| |done]. by rewrite Hperm.
  - apply untouched_not_touched in Ht.
    rewrite (proj1 (Hp1 k) Ht). rewrite (proj1 (Hp2 k)); [done|].
    intros s e Hel. apply Ht. by rewrite <- Hperm.
Qed.

Lemma find_all_bundles_nil data :
  find_all_bundles data = Return [] <-> forall p, ~ occurs data CERT_BEGIN p.
Proof.
  split; [|apply find_all_bundles_no_begin].
  intros Htr%find_all_bundles_trace p Hp. pose proof Hp as (H0 & _).
  destruct (scan_trace_covers data 0 [] p) as (s & e & Hin & _); [lia|done..|].
  by apply elem_of_nil in Hin.
Qed.

Lemma select_targets_Raise blob indices err :
  select_targets blob indices = Raise err ->
  (err = MalformedBundle /\ find_all_bundles blob = Raise MalformedBundle) \/
  (err = NoBundlesFound /\ find_all_bundles blob = Return []) \/
  (exists bundles requested i,
     find_all_bundles blob = Return bundles /\ indices = Some requested /\
     err = IndexOutOfRange i (len bundles) /\ i ∈ requested /\
     ~ in_range (len bundles) (normalize (len bundles) i)).
Proof.
  unfold select_targets.
  pose proof (find_all_bundles_raise blob) as Hraise.
  destruct (find_all_bundles blob) as [[|t bundles]|err'|]; [| | |done].
  - intros [= <-]. right. by left.
  - destruct indices as [requested|]; [|done].
    intros (i & -> & Hi & Hout)%select_loop_Raise.
    right. right. by exists (t :: bundles), requested, i.
  - intros [= <-]. left. by destruct (Hraise err') as [-> _].
Qed.

Lemma select_targets_fuel blob indices : select_targets blob indices <> OutOfFuel.
Proof.
  unfold select_targets. pose proof (find_all_bundles_fuel blob) as Hf.
  destruct (find_all_bundles blob) as [[|t bundles]|err'|]; [done| |done..].
  destruct indices as [requested|]; [|done]. unfold _select_bundles.
  destruct (first_offender
              (fun i => in_range (len (t :: bundles))
                          (normalize (len (t :: bundles)) i)) requested)
    as [Hall|(pre & i & post & -> & Hpre & Hi)].
  - by rewrite select_loop_in_range.
  - by rewrite select_loop_out_of_range.
Qed.

(** X6. An index list that is empty patches nothing: whenever the blob
    holds a BEGIN marker and every BEGIN marker has an END marker at or
    after it, the output is the input, byte for byte, whatever the
    replacement (too long or not) and whatever the mode. *)
Theorem patch_nothing_selected blob replacement strict :
  (exists p, occurs blob CERT_BEGIN p) ->
  (forall p, occurs blob CERT_BEGIN p ->
     exists q, p <= q /\ occurs blob CERT_END q) ->
  patch_bundle blob replacement (Some []) strict = Return blob.
Proof.
  intros [p Hp] Hterm.
  destruct (find_all_bundles_terminated blob Hterm) as [bundles Hscan].
  unfold patch_bundle, select_targets. rewrite Hscan.
  destruct bundles as [|t bundles]; [|done].
  pose proof (proj1 (find_all_bundles_nil blob) Hscan) as Hno.
  by destruct (Hno p).
Qed.

Lemma patch_nothing_selected_witness :
  patch_bundle firmware bytes_120 (Some []) true = Return firmware.
Proof.
  apply patch_nothing_selected.
  - exists 4. apply occurrences_spec. vm_compute. set_solver.
  - apply terminated_spec. vm_compute. reflexivity.
Defined.

(** X7. Patching raises the no-bundles error exactly when the blob has
    no BEGIN marker, whatever the replacement, the index list and the
    mode. *)
Theorem patch_no_bundles blob replacement indices strict :
  patch_bundle blob replacement indices strict = Raise NoBundlesFound <->
  forall p, ~ occurs blob CERT_BEGIN p.
Proof.
  split.
  - unfold patch_bundle.
    destruct (select_targets blob indices) as [targets|err|] eqn:E; [| |done].
    + intros (j & [s e] & _ & _ & _ & Herr)%patch_loop_Raise.
      unfold rejection in Herr. by destruct (_ >? _).
    + intros [= ->].
      destruct (select_targets_Raise _ _ _ E)
        as [[? _]|[[_ Hnil]|(? & ? & ? & _ & _ & ? & _)]]; [done| |done].
      by apply (proj1 (find_all_bundles_nil blob)).
  - intros Hno. pose proof (proj2 (find_all_bundles_nil blob) Hno) as Hnil.
    unfold patch_bundle, select_targets. by rewrite Hnil.
Qed.

Lemma patch_no_bundles_witness :
  patch_bundle bytes_100 replacement_58 (Some [7]) true = Raise NoBundlesFound.
Proof.
  apply patch_no_bundles.
  intros p Hp%occurrences_spec. vm_compute in Hp. by apply elem_of_nil in Hp.
Defined.

(** X8. Every error of [patch_bundle] is earned, and the fuel never
    runs out: the malformed-input error is the scanner's; the no-bundles
    error means the scan returned the empty list; the out-of-range error
    only comes with an explicit index list, names one of its indices that
    normalizes outside [[0, n)] and the number [n] of bundles found; the
    oversize error names a target of the plan that is shorter than the
    replacement, with both lengths; the undersize error only comes in
    strict mode and names a target that is longer than the replacement. *)
Theorem patch_bundle_errors blob replacement indices strict :
  patch_bundle blob replacement indices strict <> OutOfFuel /\
  forall err,
    patch_bundle blob replacement indices strict = Raise err ->
    match err with
    | MalformedBundle => find_all_bundles blob = Raise MalformedBundle
    | NoBundlesFound => find_all_bundles blob = Return []
    | IndexOutOfRange i n =>
        exists bundles requested,
          find_all_bundles blob = Return bundles /\ indices = Some requested /\
          n = len bundles /\ i ∈ requested /\ ~ in_range n (normalize n i)
    | ReplacementLarger idx new_len orig_len =>
        exists targets s e,
          select_targets blob indices = Return targets /\
          0 <= idx /\ targets !! Z.to_nat idx = Some (s, e) /\
          new_len = len replacement /\ orig_len = e - s /\ new_len > orig_len
    | ReplacementSmaller idx =>
        strict = true /\
        exists targets s e,
          select_targets blob indices = Return targets /\
          0 <= idx /\ targets !! Z.to_nat idx = Some (s, e) /\
          len replacement < e - s
    end.
Proof.
  unfold patch_bundle.
  pose proof (select_targets_fuel blob indices) as Hf.
  destruct (select_targets blob indices) as [targets|err'|] eqn:E; [| |done].
  - split; [apply patch_loop_fuel|].
    intros err (j & [s e] & Hj & _ & Hrej & ->)%patch_loop_Raise.
    unfold rejection. simpl.
    destruct (accepted_cases replacement strict s e) as [H|[H|[H ->]]]; [done| |].
    + destruct (Z.gtb_spec (len replacement) (e - s)); [|lia].
      exists targets, s, e. rewrite Nat2Z.id. repeat (split; [done || lia|]). lia.
    + destruct (Z.gtb_spec (len replacement) (e - s)); [lia|].
      split; [done|]. exists targets, s, e. rewrite Nat2Z.id.
      repeat (split; [done || lia|]). lia.
  - split; [done|]. intros err [= <-].
    destruct (select_targets_Raise _ _ _ E)
      as [[-> H]|[[-> H]|(bundles & requested & i & H1 & H2 & -> & H3 & H4)]];
      [done..|].
    by exists bundles, requested.
Qed.

Lemma patch_bundle_errors_witness :
  exists bundles requested,
    find_all_bundles firmware = Return bundles /\
    Some [0; 9] = Some requested /\
    2 = len bundles /\ 9 ∈ requested /\ ~ in_range 2 (normalize 2 9).
Proof.
  apply (proj2 (patch_bundle_errors firmware bytes_120 (Some [0; 9]) false)
           (IndexOutOfRange 9 2)).
  vm_compute. reflexivity.
Defined.

(** X9. When patching succeeds.  For the targets the scanner and the
    selector settle on, non-strict patching returns a blob exactly when
    the replacement is no longer than any target, and strict patching
    exactly when every target is as long as the replacement; so strict
    patching of two targets of different lengths never succeeds. *)
Theorem patch_succeeds_iff blob replacement indices targets :
  select_targets blob indices = Return targets ->
  ((exists out, patch_bundle blob replacement indices false = Return out) <->
   forall s e, (s, e) ∈ targets -> len replacement <= e - s) /\
  ((exists out, patch_bundle blob replacement indices true = Return out) <->
   forall s e, (s, e) ∈ targets -> len replacement = e - s) /\
  (forall s1 e1 s2 e2,
     (s1, e1) ∈ targets -> (s2, e2) ∈ targets -> e1 - s1 <> e2 - s2 ->
     exists err, patch_bundle blob replacement indices true = Raise err).
Proof.
  intros Hsel.
  assert (forall strict,
            (exists out, patch_bundle blob replacement indices strict = Return out)
            <-> Forall (accepted replacement strict) targets) as Hiff.
  { intros strict. rewrite (patch_bundle_loop _ _ _ _ _ Hsel). split.
    - intros [out Hout]. by eapply patch_loop_Return.
    - apply patch_loop_accepted. }
  assert ((exists out, patch_bundle blob replacement indices true = Return out)
          <-> forall s e, (s, e) ∈ targets -> len replacement = e - s) as Hstrict.
  { rewrite Hiff, Forall_forall. unfold accepted. split.
    - intros H s e Hel. destruct (H _ Hel) as [_ Heq]. by apply Heq.
    - intros H [s e] Hel. specialize (H s e Hel). simpl. split; [lia|done]. }
  split; [|split; [done|]].
  - rewrite Hiff, Forall_forall. unfold accepted. split.
    + intros H s e Hel. by destruct (H _ Hel) as [Hle _].
    + intros H [s e] Hel. specialize (H s e Hel). simpl. split; [done|].
      intros [=].
  - intros s1 e1 s2 e2 H1 H2 Hne.
    pose proof (patch_loop_fuel blob 0 targets replacement true) as Hf.
    rewrite (patch_bundle_loop _ _ _ _ _ Hsel) in *.
    destruct (patch_loop blob 0 targets replacement true) as [out|err|] eqn:E;
      [|by exists err|done].
    pose proof (proj1 Hstrict (ex_intro _ out eq_refl)) as Hlen.
    pose proof (Hlen _ _ H1). pose proof (Hlen _ _ H2). lia.
Qed.

Lemma patch_succeeds_iff_witness :
  (exists out, patch_bundle firmware replacement_58 None false = Return out) /\
  (exists err, patch_bundle firmware replacement_58 None true = Raise err).
Proof.
  assert (select_targets firmware None = Return [(4, 62); (64, 126)]) as Hsel
    by (vm_compute; reflexivity).
  destruct (patch_succeeds_iff firmware replacement_58 None _ Hsel)
    as (Hloose & _ & Hdiff).
  split.
  - apply Hloose. intros s e Hel.
    apply elem_of_cons in Hel as [[= -> ->]|Hel]; [by vm_compute|].
    apply list_elem_of_singleton in Hel as [= -> ->]. by vm_compute.
  - apply (Hdiff 4 62 64 126); [left|right; left|lia].
Defined.

(** X10. Patching is idempotent on its plan: running the loop again over
    the output of a successful run, with the same targets, replacement
    and mode, succeeds and returns that output unchanged. *)
Theorem patch_twice blob replacement indices strict targets out :
  select_targets blob indices = Return targets ->
  patch_bundle blob replacement indices strict = Return out ->
  patch_loop out 0 targets replacement strict = Return out.
Proof.
  intros Hsel. rewrite (patch_bundle_loop _ _ _ _ _ Hsel). intros Hloop.
  destruct (select_targets_valid _ _ _ Hsel) as [Hin Hdis].
  destruct (patch_loop_pointwise _ _ _ _ _ _ Hin Hdis Hloop) as [Hlen Hp].
  assert (Forall (in_blob out) targets) as Hin'.
  { eapply Forall_impl; [exact Hin|]. intros t. by apply in_blob_length. }
  destruct (patch_loop_accepted out 0 targets replacement strict) as [out' Hout'].
  { by eapply patch_loop_Return. }
  rewrite Hout'. f_equal.
  destruct (patch_loop_pointwise _ _ _ _ _ _ Hin' Hdis Hout') as [Hlen' Hp'].
  apply list_eq. intros k.
  destruct (decide (touched targets (Z.of_nat k))) as [Ht|Ht].
  - apply Exists_exists in Ht as ([s e] & Hel & Hk). simpl in Hk.
    rewrite (proj2 (Hp' k) s e Hel Hk). by rewrite (proj2 (Hp k) s e Hel Hk).
  - apply untouched_not_touched in Ht. by rewrite (proj1 (Hp' k) Ht).
Qed.

Lemma patch_twice_witness :
  patch_loop firmware_patched 0 [(4, 62); (64, 126)] replacement_58 false =
  Return firmware_patched.
Proof.
  apply (patch_twice firmware replacement_58 (Some [0; 1]) false);
    vm_compute; reflexivity.
Defined.

(** X12. The output does not depend on the order of the plan: when
    patching succeeds, running the loop over the same targets in any
    other order succeeds with the same output, so two index lists that
    select the same bundles in different orders give the same file. *)
Theorem patch_order_irrelevant blob replacement strict indices targets out :
  select_targets blob indices = Return targets ->
  patch_bundle blob replacement indices strict = Return out ->
  (forall applied,
     applied ≡ₚ targets ->
     patch_loop blob 0 applied replacement strict = Return out) /\
  (forall indices' targets',
     select_targets blob indices' = Return targets' ->
     targets' ≡ₚ targets ->
     patch_bundle blob replacement indices' strict = Return out).
Proof.
  intros Hsel. rewrite (patch_bundle_loop _ _ _ _ _ Hsel). intros Hloop.
  destruct (select_targets_valid _ _ _ Hsel) as [Hin Hdis].
  assert (forall applied,
            applied ≡ₚ targets ->
            patch_loop blob 0 applied replacement strict = Return out) as Hany.
  { intros applied Hperm.
    destruct (patch_loop_accepted blob 0 applied replacement strict)
      as [out' Hout'].
    { rewrite Hperm. by eapply patch_loop_Return. }
    rewrite Hout'. f_equal. symmetry.
    by eapply (patch_loop_same_output blob 0 0 targets applied). }
  split; [done|].
  intros indices' targets' Hsel' Hperm.
  rewrite (patch_bundle_loop _ _ _ _ _ Hsel'). by apply Hany.
Qed.

Lemma patch_order_irrelevant_witness :
  patch_bundle firmware replacement_58 (Some [-1; 0]) false =
  Return firmware_patched.
Proof.
  assert (select_targets firmware (Some [0; 1]) = Return [(4, 62); (64, 126)])
    as Hsel by (vm_compute; reflexivity).
  assert (patch_bundle firmware replacement_58 (Some [0; 1]) false =
          Return firmware_patched) as Hpatch by (vm_compute; reflexivity).
  destruct (patch_order_irrelevant firmware replacement_58 false _ _ _
              Hsel Hpatch) as [_ Hother].
  apply (Hother (Some [-1; 0]) [(64, 126); (4, 62)]).
  - vm_compute. reflexivity.
  - apply Permutation_swap.
Defined.

(** ** Markers after patching *)

Lemma occurs_lookup data sub p j c :
  occurs data sub p -> sub !! j = Some c ->
  data !! (Z.to_nat p + j)%nat = Some c.
Proof.
  intros (Hp & Hb & Heq) Hj. rewrite <- Heq in Hj.
  apply lookup_take_Some in Hj as [Hj _]. by rewrite lookup_drop in Hj.
Qed.

Lemma occurs_from_lookup data sub p :
  0 <= p -> p + len sub <= len data ->
  (forall j c, sub !! j = Some c -> data !! (Z.to_nat p + j)%nat = Some c) ->
  occurs data sub p.
Proof.
  intros Hp Hb Hall. split; [done|]. split; [done|].
  apply list_eq. intros j. destruct (sub !! j) as [c|] eqn:E.
  - rewrite lookup_take_lt by (by apply lookup_lt_Some in E).
    rewrite lookup_drop. by apply Hall.
  - apply lookup_take_ge. by apply lookup_ge_None in E.
Qed.

Lemma x00_not_in_BEGIN : x00 ∉ CERT_BEGIN.
Proof.
  unfold CERT_BEGIN. intros H.
  repeat (apply elem_of_cons in H as [H|H]; [discriminate H|]).
  by apply elem_of_nil in H.
Qed.

(** X11. Replacing every bundle by bytes that do not occur in the BEGIN
    marker (the empty replacement, say, which fills the bundles with NUL
    bytes) leaves no BEGIN marker behind: when such a patch of all
    bundles succeeds, its output has no BEGIN marker, a scan of it
    returns the empty list and patching it again raises the no-bundles
    error. *)
Theorem patch_erases_markers blob replacement strict out :
  Forall (fun c => c ∉ CERT_BEGIN) replacement ->
  patch_bundle blob replacement None strict = Return out ->
  (forall p, ~ occurs out CERT_BEGIN p) /\
  find_all_bundles out = Return [] /\
  (forall replacement' indices' strict',
     patch_bundle out replacement' indices' strict' = Raise NoBundlesFound).
Proof.
  intros Hrepl Hpatch.
  assert (forall p, ~ occurs out CERT_BEGIN p) as Hno; [|split; [done|split]].
  - unfold patch_bundle in Hpatch.
    destruct (select_targets blob None) as [targets| |] eqn:Hsel; [|done..].
    destruct (select_targets_Return _ _ _ Hsel) as (bundles & Hscan & _ & ->).
    destruct (select_targets_valid _ _ _ Hsel) as [Hin Hdis].
    destruct (patch_loop_pointwise _ _ _ _ _ _ Hin Hdis Hpatch) as [Hlen Hp].
    pose proof (find_all_bundles_trace _ _ Hscan) as Htr.
    intros p Hocc. pose proof Hocc as (Hp0 & Hpb & _).
    assert (forall j c, CERT_BEGIN !! j = Some c ->
              untouched bundles (Z.of_nat (Z.to_nat p + j))) as Hun.
    { intros j c Hj. apply untouched_not_touched.
      intros ([s e] & Hel & Hk)%Exists_exists. simpl in Hk.
      pose proof (occurs_lookup _ _ _ _ _ Hocc Hj) as Hout.
      rewrite (proj2 (Hp _) s e Hel Hk) in Hout. injection Hout as Hout.
      apply list_elem_of_lookup_2 in Hj. rewrite <- Hout in Hj.
      destruct (replacement !! _) as [c'|] eqn:Hc'; simpl in Hj.
      - rewrite Forall_forall in Hrepl.
        by apply (Hrepl c'); [eapply list_elem_of_lookup_2|].
      - by apply x00_not_in_BEGIN. }
    assert (occurs blob CERT_BEGIN p) as Hblob.
    { apply occurs_from_lookup; [done|unfold len in *; lia|].
      intros j c Hj. rewrite <- (proj1 (Hp _) (Hun j c Hj)).
      by eapply occurs_lookup. }
    destruct (scan_trace_covers blob 0 bundles p) as (s & e & Hel & Hk);
      [lia|done|lia|done|].
    apply (Hun 0%nat x2d eq_refl s e Hel). lia.
  - by apply (proj2 (find_all_bundles_nil out)).
  - intros replacement' indices' strict'.
    unfold patch_bundle, select_targets.
    by rewrite (proj2 (find_all_bundles_nil out) Hno).
Qed.

Lemma patch_erases_markers_witness :
  exists out,
    patch_bundle firmware [] None false = Return out /\
    find_all_bundles out = Return [].
Proof.
  destruct (patch_bundle firmware [] None false) as [out| |] eqn:E;
    [|by vm_compute in E..].
  exists out. split; [done|].
  by apply (patch_erases_markers firmware [] false out).
Defined.

(** ** Parsing the index list *)

Lemma split_comma_nonempty s : split_comma s <> [].
Proof.
  destruct s as [|c s]; simpl; [done|].
  destruct (decide (c = comma)); [done|]. by destruct (split_comma s).
Qed.

Lemma split_comma_app s1 s2 :
  split_comma (s1 ++ comma :: s2) = split_comma s1 ++ split_comma s2.
Proof.
  induction s1 as [|c s1 IH]; simpl.
  - try rewrite decide_True by done. done.
  - rewrite IH. destruct (decide (c = comma)); [done|].
    pose proof (split_comma_nonempty s1).
    by destruct (split_comma s1).
Qed.

Lemma split_comma_token t : comma ∉ t -> split_comma t = [t].
Proof.
  induction t as [|c t IH]; [done|].
  intros [Hc Ht]%not_elem_of_cons. simpl.
  rewrite decide_False by done. by rewrite IH.
Qed.

Lemma parse_tokens_app strip int toks1 toks2 :
  parse_tokens strip int (toks1 ++ toks2) =
  parsed_app (parse_tokens strip int toks1) (parse_tokens strip int toks2).
Proof.
  induction toks1 as [|tok toks1 IH]; simpl.
  - by destruct (parse_tokens strip int toks2).
  - destruct (decide (strip tok = [])); [done|].
    destruct (int (strip tok)); [|done]. rewrite IH.
    destruct (parse_tokens strip int toks1); [|done].
    by destruct (parse_tokens strip int toks2).
Qed.

(** X13. [_parse_indices] works token by token, whatever [str.strip] and
    [int] do: a text without a comma that strips to nothing gives the
    empty list, any other text without a comma gives the one integer its
    stripped form denotes, or the argument error when [int] rejects it;
    and the parse of two texts joined by a comma is the parse of the
    first followed by the parse of the second, an error in either being
    an error of the whole. *)
Theorem parse_indices_by_token strip int :
  (forall t, comma ∉ t ->
     _parse_indices strip int t =
     if decide (strip t = []) then Indices []
     else match int (strip t) with
          | Some i => Indices [i]
          | None => ArgumentTypeError
          end) /\
  (forall s1 s2,
     _parse_indices strip int (s1 ++ comma :: s2) =
     parsed_app (_parse_indices strip int s1) (_parse_indices strip int s2)).
Proof.
  split.
  - intros t Ht. unfold _parse_indices. rewrite split_comma_token by done.
    simpl. destruct (decide (strip t = [])); [done|].
    by destruct (int (strip t)).
  - intros s1 s2. unfold _parse_indices.
    by rewrite split_comma_app, parse_tokens_app.
Qed.

Lemma parse_indices_by_token_witness :
  _parse_indices (fun t => t) (fun t => Some (len t)) [48; 49] =
  Indices [2].
Proof.
  apply (proj1 (parse_indices_by_token (fun t => t) (fun t => Some (len t)))
           [48; 49]).
  intros H. apply elem_of_cons in H as [H|H]; [discriminate H|].
  apply list_elem_of_singleton in H. discriminate H.
Defined.

(** ** How short a bundle can be *)

Lemma markers_clash k :
  (k < 22)%nat ->
  exists j a c, CERT_BEGIN !! (k + j)%nat = Some a /\ CERT_END !! j = Some c /\
                a <> c.
Proof.
  intros Hk.
  do 22 (destruct k as [|k];
         [first [ by exists 0%nat, x2d, x2d | by eexists 0%nat, _, x2d
                | by eexists 1%nat, _, x2d | by eexists 2%nat, _, x2d
                | by eexists 3%nat, _, x2d | by eexists 4%nat, _, x2d
                | by eexists 5%nat, _, x45 ]|]).
  lia.
Qed.

Lemma begin_end_apart data s q :
  occurs data CERT_BEGIN s -> occurs data CERT_END q -> s <= q ->
  s + 22 <= q.
Proof.
  intros Hb He Hle. destruct (Z.le_gt_cases (s + 22) q) as [|Hlt]; [done|].
  pose proof Hb as (Hs & _).
  destruct (markers_clash (Z.to_nat (q - s))) as (j & a & c & Ha & Hc & Hne);
    [lia|].
  pose proof (occurs_lookup _ _ _ _ _ Hb Ha) as H1.
  pose proof (occurs_lookup _ _ _ _ _ He Hc) as H2.
  replace (Z.to_nat s + (Z.to_nat (q - s) + j))%nat with (Z.to_nat q + j)%nat
    in H1 by lia.
  congruence.
Qed.

Lemma select_targets_subset blob indices targets :
  select_targets blob indices = Return targets ->
  exists bundles, find_all_bundles blob = Return bundles /\
                  forall t, t ∈ targets -> t ∈ bundles.
Proof.
  intros (bundles & Hscan & _ & Hsel)%select_targets_Return.
  exists bundles. split; [done|]. destruct indices as [indices|]; [|by subst].
  apply select_bundles_Return in Hsel as [Hall ->].
  intros t (k & -> & Hk)%list_elem_of_fmap.
  apply first_occurrences_elem_of, list_elem_of_fmap in Hk as (i & -> & Hi).
  rewrite Forall_forall in Hall. specialize (Hall i Hi).
  apply list_elem_of_lookup_total_2. unfold in_range, len in *. lia.
Qed.

(** X14. No bundle is shorter than 47 bytes: the END marker that closes
    a bundle starts at least 22 bytes after the bundle's BEGIN marker, so
    every bundle the scan returns spans at least [22 + len(CERT_END)]
    bytes.  Hence a replacement of at most 47 bytes is never too long:
    non-strict patching with it succeeds whatever bundles are selected. *)
Theorem bundle_at_least_47 blob bundles :
  find_all_bundles blob = Return bundles ->
  (forall s e, (s, e) ∈ bundles ->
     exists q, occurs blob CERT_END q /\ s + 22 <= q /\
               q + len CERT_END <= e /\ 47 <= e - s) /\
  (forall replacement indices targets,
     select_targets blob indices = Return targets ->
     len replacement <= 47 ->
     exists out, patch_bundle blob replacement indices false = Return out).
Proof.
  intros Hscan. pose proof (find_all_bundles_trace _ _ Hscan) as Htr.
  assert (forall s e, (s, e) ∈ bundles ->
            exists q, occurs blob CERT_END q /\ s + 22 <= q /\
                      q + len CERT_END <= e /\ 47 <= e - s) as Hmin.
  { intros s e (i & Hi)%list_elem_of_lookup_1.
    destruct (scan_trace_lookup blob 0 bundles i s e) as (pos & Hpos & Hs & _);
      [lia|done..|].
    destruct (scan_single_Some _ _ _ _ Hpos Hs)
      as (_ & Hb & _ & q & Hq & Hoq & -> & _).
    destruct (after_end_spec blob q Hoq) as (Hr & _).
    pose proof (begin_end_apart _ _ _ Hb Hoq Hq).
    exists q. rewrite len_CERT_END in *. repeat (split; [done || lia|]). lia. }
  split; [done|].
  intros replacement indices targets Hsel Hlen.
  rewrite (patch_bundle_loop _ _ _ _ _ Hsel). apply patch_loop_accepted.
  destruct (select_targets_subset _ _ _ Hsel) as (bundles' & Hscan' & Hsub).
  rewrite Hscan in Hscan'. injection Hscan' as <-.
  apply Forall_forall. intros [s e] Hel.
  destruct (Hmin s e (Hsub _ Hel)) as (q & _ & _ & _ & H47).
  unfold accepted. simpl. split; [lia|]. intros [=].
Qed.

Lemma bundle_at_least_47_witness :
  find_all_bundles blob_tight = Return [(0, 47)] /\
  exists out, patch_bundle blob_tight (take 47 bytes_80) None false = Return out.
Proof.
  assert (find_all_bundles blob_tight = Return [(0, 47)]) as Hscan
    by (vm_compute; reflexivity).
  split; [done|].
  apply (proj2 (bundle_at_least_47 blob_tight _ Hscan) _ None [(0, 47)]);
    [vm_compute; reflexivity|by vm_compute].
Defined.
